(** * Dashboard PRODES: the data pipeline of [app.py]

    A shallow embedding of the three functions of [src/app.py] that carry the
    dashboard's logic:

    - [load_data]: column renaming, numeric coercion, row filtering;
    - [create_choropleth_map]: sampling, normalisation of areas into a colour
      intensity and an extrusion height, colour and map centre;
    - [main]: filters, the guards before rendering, and the two historical
      aggregations (by year, by year and state); the ends of the year slider
      and the years and state of the largest totals it reports;

    and of the column selection of [src/simplify.py], which prepares the file
    the dashboard loads.

    Conventions of the embedding.

    - A finite [float64] value is the rational number ([Q]) it denotes, so
      comparisons, minima, maxima and casts to int are exact; the missing
      value (NaN) is a constructor of its own. Subtraction, multiplication,
      division and the sum of a column are numpy's, not this repository's:
      they are the fields of the class [Float64], which return the double
      numpy computes (the exact result, rounded). Two instances run the
      model: [exact] (no rounding) and [binary64] (IEEE 754 doubles, round to
      nearest even). What a theorem needs of the rounding it takes from
      [Float64Laws]. Overflow of these operations and the infinities are
      outside the model: no cell of a table is infinite. The cast of the
      year to int64 is modelled with what it gives out of range.
    - Streamlit calls ([st.error], [st.warning], charts) are effects: every
      function that makes them returns the log of what it displayed next to its
      value (a writer monad, [St]).
    - geopandas, pyproj, shapely and the string parser of [pd.to_numeric] are
      libraries too: they are the other fields of the class [Backend]. *)

From Stdlib Require Import ZArith QArith Qround Qminmax.
From Stdlib Require Import String Ascii List Bool Arith Lia Lqa.
From Stdlib Require Import Permutation Sorted.
From Stdlib Require PrimFloat FloatOps SpecFloat Uint63.
Import ListNotations.

Set Warnings "-abstract-large-number".

Local Open Scope Z_scope.

(** ** Numbers *)

(** [Series.astype(int)] on a float column and Python's [int(x)] on a float:
    the fractional part is discarded (rounding toward zero). *)
Definition astype_int (q : Q) : Z := Z.quot (Qnum q) (Zpos (Qden q)).

(** [Series.astype(int)] on a float64 column gives an int64 column: the
    fractional part is discarded, and a value whose integer part is no int64
    gives what the processor's conversion gives, on x86-64 the smallest
    int64 (1e19 becomes -9223372036854775808). *)
Definition int64_min : Z := -9223372036854775808.
Definition int64_max : Z := 9223372036854775807.

Definition astype_int64 (q : Q) : Z :=
  let z := astype_int q in
  if (int64_min <=? z) && (z <=? int64_max) then z else int64_min.

(** Rounding to the nearest integer, as the specification writes [round].
    Two readings of a tie are given: Python's built-in [round] (half to even)
    and the schoolbook one (half up). *)
Definition round_half_even (q : Q) : Z :=
  let f := Qfloor q in
  match Qcompare (q - inject_Z f) (1 # 2) with
  | Lt => f
  | Gt => f + 1
  | Eq => if Z.even f then f else f + 1
  end.

Definition round_half_up (q : Q) : Z := Qfloor (q + (1 # 2)).

(** [a > b] on two float scalars. *)
Definition Qgtb (a b : Q) : bool :=
  match Qcompare a b with Gt => true | _ => false end.

(** [Series.min()] and [Series.max()]: [None] stands for the NaN pandas
    returns on an empty column. *)
Definition series_min (s : list Q) : option Q :=
  match s with
  | [] => None
  | x :: t => Some (fold_left Qmin t x)
  end.

Definition series_max (s : list Q) : option Q :=
  match s with
  | [] => None
  | x :: t => Some (fold_left Qmax t x)
  end.

(** numpy's arithmetic on finite doubles: [is_float64] tells the rationals
    that are doubles, each operation returns the double nearest to the exact
    result, as the rational it denotes, and [fsum] is the sum of a column,
    accumulated as the library does. *)
Class Float64 : Type := {
  is_float64 : Q -> Prop;
  fsum : list Q -> Q;
  fsub : Q -> Q -> Q;
  fmul : Q -> Q -> Q;
  fdiv : Q -> Q -> Q
}.

(** What the theorems on computed numbers use of that arithmetic, on
    operands that are doubles. Every law holds of correctly rounded
    arithmetic short of overflow: the integers up to 2^53 and the half are
    doubles, the result of an operation is a double, rounding is monotone
    and leaves a double where it is (0, 1, the factor [c], the halves up to
    255), and the difference of two distinct doubles is not 0. *)
Record Float64Laws (ops : Float64) : Prop := {
  float64_int : forall z : Z, Z.abs z <= 2 ^ 53 -> is_float64 (inject_Z z);
  fsub_float64 :
    forall a b, is_float64 a -> is_float64 b -> is_float64 (fsub a b);
  fdiv_float64 :
    forall x y, is_float64 x -> is_float64 y -> is_float64 (fdiv x y);
  fsub_nonneg :
    forall a b, is_float64 a -> is_float64 b -> (b <= a)%Q -> (0 <= fsub a b)%Q;
  fsub_pos :
    forall a b, is_float64 a -> is_float64 b -> (b < a)%Q -> (0 < fsub a b)%Q;
  fsub_mono :
    forall a a' b, is_float64 a -> is_float64 a' -> is_float64 b ->
                   (a <= a')%Q -> (fsub a b <= fsub a' b)%Q;
  fsub_same :
    forall a b, is_float64 a -> is_float64 b -> a == b -> fsub a b == 0;
  fdiv_unit :
    forall x y, is_float64 x -> is_float64 y ->
                (0 <= x)%Q -> (x <= y)%Q -> (0 < y)%Q ->
                (0 <= fdiv x y <= 1)%Q;
  fdiv_zero :
    forall x y, is_float64 x -> is_float64 y ->
                x == 0 -> (0 < y)%Q -> fdiv x y == 0;
  fdiv_same :
    forall x y, is_float64 x -> is_float64 y ->
                x == y -> (0 < y)%Q -> fdiv x y == 1;
  fmul_unit :
    forall r c, is_float64 r -> is_float64 c ->
                (0 <= r)%Q -> (r <= 1)%Q -> (0 <= c)%Q ->
                (0 <= fmul r c <= c)%Q;
  fmul_zero :
    forall r c, is_float64 r -> is_float64 c -> r == 0 -> fmul r c == 0;
  fmul_one :
    forall r c, is_float64 r -> is_float64 c -> r == 1 -> fmul r c == c;
  half_exact :
    forall x : Z, 0 <= x <= 255 ->
      fsub 255 (fmul (inject_Z x) (1 # 2)) == 255 - inject_Z x * (1 # 2)
}.

Section Series.
Context {float64 : Float64}.

(** [Series.sum()], of the values in row order. *)
Definition series_sum (s : list Q) : Q := fsum s.

(** [Series.mean()]: NaN ([None]) on an empty column. *)
Definition series_mean (s : list Q) : option Q :=
  match s with
  | [] => None
  | _ => Some (fdiv (series_sum s) (inject_Z (Z.of_nat (length s))))
  end.
End Series.

(** ** Cells of a raw table *)

(** What a cell of the raw table may hold: a number, a text, or the missing
    value (NaN / None). *)
Inductive cell : Type :=
| CNum (q : Q)
| CStr (s : string)
| CNaN.

Definition is_nan (c : cell) : bool :=
  match c with CNaN => true | _ => false end.

Definition is_str (c : cell) : bool :=
  match c with CStr _ => true | _ => false end.

(** The order pandas sorts group keys in: numbers before texts, numbers by
    value, texts by code point. Missing keys never reach it ([groupby] drops
    them); they are put last. *)
Definition cell_compare (a b : cell) : comparison :=
  match a, b with
  | CNum p, CNum q => Qcompare p q
  | CNum _, _ => Lt
  | CStr _, CNum _ => Gt
  | CStr s, CStr t => String.compare s t
  | CStr _, CNaN => Lt
  | CNaN, CNaN => Eq
  | CNaN, _ => Gt
  end.

Definition cell_eqb (a b : cell) : bool :=
  match cell_compare a b with Eq => true | _ => false end.

(** [Series.isin(values)]. *)
Definition isin (c : cell) (values : list cell) : bool :=
  existsb (cell_eqb c) values.


(** ** The libraries behind the dashboard *)

Class Backend : Type := {
  (** a shapely polygon or multipolygon *)
  Geom : Type;
  (** a pyproj coordinate reference system *)
  CRS : Type;
  (** [crs == 'EPSG:4326'] *)
  is_epsg4326 : CRS -> bool;
  (** [to_crs(epsg=4326)] on one geometry; [None] when pyproj raises *)
  to_crs : CRS -> Geom -> option Geom;
  (** [geometry.centroid], as (x, y) *)
  centroid : Geom -> Q * Q;
  (** how [pd.to_numeric] reads a text; [None] when it cannot *)
  parse_number : string -> option Q;
  (** numpy's float64 arithmetic *)
  float64 :: Float64
}.

(** ** Stable sorting, as pandas does it for [nlargest] and for
       [sort_values] on several columns *)

Section StableSort.
Context {A : Type}.
(** [before x y]: [x] must come strictly before [y]. *)
Variable before : A -> A -> bool.

(** Inserting [x] in front of a sorted list of elements that followed it in
    the input: [x] only passes the elements that must come before it. *)
Fixpoint insert_sorted (x : A) (l : list A) : list A :=
  match l with
  | [] => [x]
  | y :: t => if before y x then y :: insert_sorted x t else x :: y :: t
  end.

Definition stable_sort (l : list A) : list A :=
  fold_right insert_sorted [] l.

(** The order of the output when the input was in the order [S]: first
    [before], then [S] among the elements [before] does not separate. *)
Definition refined (S : A -> A -> Prop) (a b : A) : Prop :=
  before a b = true \/ (before a b = false /\ before b a = false /\ S a b).
End StableSort.

(** ** Grouped sums *)

Section GroupBy.
Context {float64 : Float64} {K : Type}.
Variable compare : K -> K -> comparison.

(** One row enters the table of groups, which is kept sorted by key: its
    value goes after the values its group has, and a new key opens a
    group. *)
Fixpoint add_to_group (k : K) (v : Q) (acc : list (K * list Q)) : list (K * list Q) :=
  match acc with
  | [] => [(k, [v])]
  | (k', vs) :: rest =>
      match compare k k' with
      | Lt => (k, [v]) :: acc
      | Eq => (k', vs ++ [v]) :: rest
      | Gt => (k', vs) :: add_to_group k v rest
      end
  end.

(** [df.groupby(key)[value]]: one group per key, keys ascending, each with
    the values of its rows in row order. *)
Definition groupby (rows : list (K * Q)) : list (K * list Q) :=
  fold_left (fun acc r => add_to_group (fst r) (snd r) acc) rows [].

(** [df.groupby(key)[value].sum().reset_index()]: one row per group, with
    the sum of its values. *)
Definition groupby_sum (rows : list (K * Q)) : list (K * Q) :=
  map (fun g => (fst g, series_sum (snd g))) (groupby rows).

(** The rows of the group of key [k], and their sum. *)
Definition same_key (k : K) (r : K * Q) : bool :=
  match compare k (fst r) with Eq => true | _ => false end.

Definition group_sum (k : K) (rows : list (K * Q)) : Q :=
  series_sum (map snd (filter (same_key k) rows)).

(** What [groupby_sum] needs of the order of the keys. *)
Record OrderLaws : Prop := {
  compare_refl : forall x, compare x x = Eq;
  compare_gt_lt : forall x y, compare x y = Gt -> compare y x = Lt;
  compare_lt_trans :
    forall x y z, compare x y = Lt -> compare y z = Lt -> compare x z = Lt;
  compare_eq_l : forall x y z, compare x y = Eq -> compare x z = compare y z
}.
End GroupBy.

(** ** Tables *)

Section Dashboard.
Context {backend : Backend}.

(** A row of the table as read from disk: its index label, its cells (one per
    column label, in the order of the labels) and its geometry. *)
Record RawRow : Type := {
  raw_index : nat;
  raw_cells : list cell;
  raw_geometry : Geom
}.

(** The GeoDataFrame [gpd.read_parquet] / [gpd.read_file] returns. *)
Record DataFrame : Type := {
  columns : list string;
  rows : list RawRow;
  crs : option CRS
}.

(** A row of the table [load_data] returns, with the columns the dashboard
    reads: [ano] is an int64 column, [area_km2] a float64 column without
    missing values; [uf] and [municipio] keep the raw cells ([uf] is only
    meaningful when the table has exactly one column of that label). *)
Record Feature : Type := {
  index : nat;
  ano : Z;
  area_km2 : Q;
  uf : cell;
  municipio : cell;
  geometry : Geom
}.

(** The table [load_data] returns: its column labels and its rows. Its
    geometries are in EPSG:4326 unless the raw table declared no reference
    system. *)
Record GeoDataFrame : Type := {
  gdf_columns : list string;
  features : list Feature
}.

(** A row of [gdf_sample] once the encoder has added its three columns. *)
Record Encoded : Type := {
  feature : Feature;
  color_intensity : Z;
  elevation : Z;
  color : list Z
}.

(** What [create_choropleth_map] hands to pydeck: the layer's rows and the
    centre of the view ([None]: the NaN a mean over no row gives). *)
Record Deck : Type := {
  layer_data : list Encoded;
  latitude : option Q;
  longitude : option Q
}.

(** ** What the dashboard displays *)

Inductive Output : Type :=
| ErrorYearColumn      (** [st.error]: column 'year' not found (line 70) *)
| ErrorAreaColumn      (** [st.error]: column 'area_km' not found (line 78) *)
| ErrorLoad            (** [st.error]: error while loading, from the handler
                           of [load_data] (line 95) *)
| ErrorNoData          (** [st.error]: the data could not be loaded (line 201) *)
| WarningSample (total : nat)
                       (** [st.warning]: showing a sample of 10000 areas out
                           of [total] (line 105) *)
| WarningNoMatch       (** [st.warning]: no data for the selected filters
                           (line 257) *)
| PydeckChart (deck : Deck)             (** [st.pydeck_chart] (line 309) *)
| LineChart (evolucao_temporal : list (Z * Q))
                                        (** the historical series (line 451) *)
| BarChart (evolucao_por_estado : list ((Z * cell) * Q))
                                        (** the stacked bars (line 515) *)
| Uncaught.            (** an exception no handler catches: the run stops *)

(** The log of displayed outputs, next to the value computed. *)
Definition St (A : Type) : Type := (list Output * A)%type.

Definition ret {A : Type} (a : A) : St A := ([], a).

Definition bind {A B : Type} (m : St A) (f : A -> St B) : St B :=
  let (log1, a) := m in
  let (log2, b) := f a in
  (log1 ++ log2, b).

Definition emit (o : Output) : St unit := ([o], tt).

Notation "x <- m ;; f" := (bind m (fun x => f))
  (at level 61, m at next level, right associativity).
Notation "m ;;; f" := (bind m (fun _ => f))
  (at level 61, right associativity).

(** ** The visual encoder: [create_choropleth_map] *)

(** [df.nlargest(n, 'area_km2')] (keep='first') on a table longer than [n]:
    the rows by descending area, rows of equal area in their original order,
    cut after the [n]-th. *)
Definition nlargest (n : nat) (df : list Feature) : list Feature :=
  firstn n (stable_sort (fun x y => Qgtb (area_km2 x) (area_km2 y)) df).

(** Line 119: [((area - area_min) / (area_max - area_min) * 255).astype(int)]. *)
Definition intensity_of (area_min area_max area : Q) : Z :=
  astype_int (fmul (fdiv (fsub area area_min) (fsub area_max area_min)) 255).

(** Line 121:
    [((area - area_min) / (area_max - area_min) * 50000).astype(int) + 5000]. *)
Definition elevation_of (area_min area_max area : Q) : Z :=
  astype_int (fmul (fdiv (fsub area area_min) (fsub area_max area_min)) 50000)
  + 5000.

(** Line 128: [lambda x: [255, int(255 - x * 0.5), 0, 200]]. *)
Definition color_of (x : Z) : list Z :=
  [255; astype_int (fsub 255 (fmul (inject_Z x) (1 # 2))); 0; 200].

Definition max_polygons : nat := 10000.

(** Lines 104-108: the rows the map shows, and the warning when they are a
    sample. *)
Definition gdf_sample (gdf_filtered : list Feature) : St (list Feature) :=
  if (max_polygons <? length gdf_filtered)%nat
  then emit (WarningSample (length gdf_filtered)) ;;;
       ret (nlargest max_polygons gdf_filtered)
  else ret gdf_filtered.

(** Lines 117-124: colour intensity and elevation of a row of area [area].
    With no row, [area_min] and [area_max] are NaN and [area_max > area_min]
    is False. *)
Definition normalise (area_min area_max : option Q) (area : Q) : Z * Z :=
  match area_min, area_max with
  | Some amin, Some amax =>
      if Qgtb amax amin
      then (intensity_of amin amax area, elevation_of amin amax area)
      else (128, 10000)
  | _, _ => (128, 10000)
  end.

(** Lines 119-129 on one row. *)
Definition encode_row (area_min area_max : option Q) (f : Feature) : Encoded :=
  let (x, h) := normalise area_min area_max (area_km2 f) in
  {| feature := f; color_intensity := x; elevation := h; color := color_of x |}.

Definition create_choropleth_map (gdf_filtered : list Feature) : St Deck :=
  gdf_sample <- gdf_sample gdf_filtered ;;
  let area_min := series_min (map area_km2 gdf_sample) in
  let area_max := series_max (map area_km2 gdf_sample) in
  let center_lat :=
    series_mean (map (fun f => snd (centroid (geometry f))) gdf_sample) in
  let center_lon :=
    series_mean (map (fun f => fst (centroid (geometry f))) gdf_sample) in
  ret {| layer_data := map (encode_row area_min area_max) gdf_sample;
         latitude := center_lat;
         longitude := center_lon |}.

(** ** The schema normaliser: [load_data] *)

(** Lines 46-58. *)
Definition column_mapping : list (string * string) :=
  [ ("year", "ano"); ("area_km", "area_km2"); ("state", "uf");
    ("class_name", "classe"); ("main_class", "classe_principal");
    ("image_date", "data_imagem"); ("satellite", "satelite");
    ("sensor", "sensor"); ("path_row", "path_row"); ("uuid", "uuid");
    ("uid", "uid") ]%string.

(** [label in gdf.columns]. *)
Definition label_in (label : string) (labels : list string) : bool :=
  existsb (String.eqb label) labels.

(** [mapping.get(label, label)], as [rename(columns=mapping)] applies it. *)
Fixpoint rename_label (mapping : list (string * string)) (label : string) : string :=
  match mapping with
  | [] => label
  | (k, v) :: rest => if String.eqb k label then v else rename_label rest label
  end.

(** Lines 61-62: only the source names present in the table are renamed. *)
Definition rename_columns (labels : list string) : list string :=
  let existing_mappings :=
    filter (fun kv => label_in (fst kv) labels) column_mapping in
  map (rename_label existing_mappings) labels.

(** The positions of a label among the column labels. *)
Fixpoint positions (label : string) (labels : list string) (from : nat) : list nat :=
  match labels with
  | [] => []
  | l :: rest =>
      if String.eqb label l then from :: positions label rest (S from)
      else positions label rest (S from)
  end.

(** [gdf[label]] as a single column: pandas raises KeyError when no column
    has the label, and hands back a sub-table (on which [pd.to_numeric] and a
    column assignment raise) when several have it. [None]: an exception. *)
Definition column_pos (label : string) (labels : list string) : option nat :=
  match positions label labels 0 with
  | [p] => Some p
  | _ => None
  end.

Definition cell_at (p : nat) (r : RawRow) : cell := nth p (raw_cells r) CNaN.

(** [pd.to_numeric(..., errors='coerce')] on one cell; [None] is NaN. *)
Definition to_numeric (c : cell) : option Q :=
  match c with
  | CNum q => Some q
  | CStr s => parse_number s
  | CNaN => None
  end.

(** Lines 66-68 on the rows: coerce, drop the rows whose year is missing,
    cast to int64. A cell holds no infinite number (see the conventions):
    the exception [astype(int)] raises on one is outside the model. *)
Definition coerce_ano (p : nat) (rs : list RawRow) : list (RawRow * Z) :=
  flat_map (fun r =>
    match to_numeric (cell_at p r) with
    | Some y => [(r, astype_int64 y)]
    | None => []
    end) rs.

(** Lines 75-76 on the rows: coerce, keep the rows with [area_km2 > 0] (a
    comparison that is False on NaN). *)
Definition coerce_area_km2 (p : nat) (rs : list (RawRow * Z)) : list (RawRow * Z * Q) :=
  flat_map (fun ry =>
    match to_numeric (cell_at p (fst ry)) with
    | Some a => if Qgtb a 0 then [(ry, a)] else []
    | None => []
    end) rs.

(** The rows lines 66-76 keep: the year cell coerces to a number, the area
    cell coerces to a number, and that number is positive. *)
Definition valid_row (p_ano p_area : nat) (r : RawRow) : bool :=
  match to_numeric (cell_at p_ano r), to_numeric (cell_at p_area r) with
  | Some _, Some a => Qgtb a 0
  | _, _ => false
  end.

(** Lines 83-86: the column [municipio] is read from. *)
Definition municipio_source (labels : list string) : option nat :=
  if label_in "path_row" labels then column_pos "path_row" labels
  else column_pos "uf" labels.

(** Lines 89-90. *)
Definition reproject (c : option CRS) (g : Geom) : option Geom :=
  match c with
  | Some c => if negb (is_epsg4326 c) then to_crs c g else Some g
  | None => Some g
  end.

Fixpoint traverse {A B : Type} (f : A -> option B) (l : list A) : option (list B) :=
  match l with
  | [] => Some []
  | x :: t =>
      match f x, traverse f t with
      | Some y, Some t' => Some (y :: t')
      | _, _ => None
      end
  end.

Definition make_feature (labels : list string) (p_mun : nat)
  (c : option CRS) (row : RawRow * Z * Q) : option Feature :=
  let '(r, y, a) := row in
  match reproject c (raw_geometry r) with
  | Some g =>
      Some {| index := raw_index r;
              ano := y;
              area_km2 := a;
              uf := match column_pos "uf" labels with
                    | Some p => cell_at p r
                    | None => CNaN
                    end;
              municipio := cell_at p_mun r;
              geometry := g |}
  | None => None
  end.

(** The body of the [try] (lines 36-92): [None] when a statement raises,
    otherwise what the function displays and returns. *)
Definition load_data_try (gdf : DataFrame) : option (St (option GeoDataFrame)) :=
  let labels := rename_columns (columns gdf) in
  if label_in "ano" labels then
    match column_pos "ano" labels with
    | None => None
    | Some p_ano =>
        let with_ano := coerce_ano p_ano (rows gdf) in
        if label_in "area_km2" labels then
          match column_pos "area_km2" labels with
          | None => None
          | Some p_area =>
              let with_area := coerce_area_km2 p_area with_ano in
              match municipio_source labels with
              | None => None
              | Some p_mun =>
                  match traverse (make_feature labels p_mun (crs gdf)) with_area with
                  | None => None
                  | Some fs =>
                      Some (ret (Some
                        {| gdf_columns :=
                             if label_in "municipio" labels then labels
                             else labels ++ ["municipio"%string];
                           features := fs |}))
                  end
              end
          end
        else Some (emit ErrorAreaColumn ;;; ret None)
    end
  else Some (emit ErrorYearColumn ;;; ret None).

(** [load_data], with its handler (lines 94-96): any exception is reported
    and [None] is returned. *)
Definition load_data (gdf : DataFrame) : St (option GeoDataFrame) :=
  match load_data_try gdf with
  | Some result => result
  | None => emit ErrorLoad ;;; ret None
  end.

(** ** The aggregation engine, as [main] uses it *)

(** Lines 406-411:
    [gdf.groupby('ano')['area_km2'].sum().reset_index().sort_values('ano')].
    The keys of the groups are distinct, so the table sorted by year is the
    same whatever the sorting algorithm. *)
Definition evolucao_temporal (gdf : list Feature) : list (Z * Q) :=
  stable_sort (fun x y => fst x <? fst y)
    (groupby_sum Z.compare (map (fun f => (ano f, area_km2 f)) gdf)).

(** The order of the group keys of [groupby(['ano', 'uf'])]. *)
Definition ano_uf_compare (a b : Z * cell) : comparison :=
  match Z.compare (fst a) (fst b) with
  | Eq => cell_compare (snd a) (snd b)
  | c => c
  end.

(** [sort_values(['ano', 'area_km2'], ascending=[True, False])]: which of two
    rows must come first. On several columns pandas sorts with a stable
    lexicographic sort: rows the two columns do not separate keep their
    order. *)
Definition ano_asc_area_desc (x y : (Z * cell) * Q) : bool :=
  (fst (fst x) <? fst (fst y)) ||
  ((fst (fst x) =? fst (fst y)) && Qgtb (snd x) (snd y)).

(** Lines 480-485; [groupby] leaves out the rows whose key is missing. *)
Definition evolucao_por_estado (gdf_para_evolucao : list Feature) : list ((Z * cell) * Q) :=
  stable_sort ano_asc_area_desc
    (groupby_sum ano_uf_compare
       (map (fun f => ((ano f, uf f), area_km2 f))
            (filter (fun f => negb (is_nan (uf f))) gdf_para_evolucao))).

(** ** The page: [main] *)

(** Line 226: [sorted(gdf['uf'].unique().tolist())] raises when the table has
    several columns labelled 'uf' (the selection is a table, which has no
    [unique]) and when texts and non-texts are mixed (Python does not order
    them). *)
Definition sidebar_raises (gdf : GeoDataFrame) : bool :=
  match column_pos "uf" (gdf_columns gdf) with
  | None => true
  | Some _ =>
      existsb (fun f => is_str (uf f)) (features gdf) &&
      existsb (fun f => negb (is_str (uf f))) (features gdf)
  end.

(** Lines 247-253. *)
Definition apply_filters (gdf : GeoDataFrame) (ano_selecionado : Z)
  (estados_selecionados : list cell) : list Feature :=
  let gdf_filtered := features gdf in
  let gdf_filtered :=
    if negb (ano_selecionado =? 0) && label_in "ano" (gdf_columns gdf)
    then filter (fun f => ano f =? ano_selecionado) gdf_filtered
    else gdf_filtered in
  if negb (match estados_selecionados with [] => true | _ => false end)
     && label_in "uf" (gdf_columns gdf)
  then filter (fun f => isin (uf f) estados_selecionados) gdf_filtered
  else gdf_filtered.

(** Lines 475-477. *)
Definition gdf_para_evolucao (gdf : GeoDataFrame)
  (estados_selecionados : list cell) : list Feature :=
  if negb (match estados_selecionados with [] => true | _ => false end)
     && label_in "uf" (gdf_columns gdf)
  then filter (fun f => isin (uf f) estados_selecionados) (features gdf)
  else features gdf.

(** [main], from the table read from disk and the two values the sidebar
    widgets return (the year of the slider, the states of the multiselect).
    The log keeps the errors and warnings, the map and the two historical
    charts; the indicators, the histogram and the pie chart (lines 260-299,
    319-396) are computed from [gdf_filtered], raise nothing and are left
    out, as are the closing statistics (lines 517-535). The handler around
    the map (lines 307-312) catches nothing here: the encoder is total. *)
Definition main (raw : DataFrame) (ano_selecionado : Z)
  (estados_selecionados : list cell) : St unit :=
  loaded <- load_data raw ;;
  match loaded with
  | None => emit ErrorNoData
  | Some gdf =>
      match features gdf with
      | [] => emit ErrorNoData
      | _ =>
          if label_in "uf" (gdf_columns gdf) && sidebar_raises gdf
          then emit Uncaught
          else
            match apply_filters gdf ano_selecionado estados_selecionados with
            | [] => emit WarningNoMatch
            | gdf_filtered =>
                fig_mapa <- create_choropleth_map gdf_filtered ;;
                emit (PydeckChart fig_mapa) ;;;
                (if label_in "ano" (gdf_columns gdf)
                 then emit (LineChart (evolucao_temporal (features gdf)))
                 else ret tt) ;;;
                (if label_in "ano" (gdf_columns gdf)
                    && label_in "uf" (gdf_columns gdf)
                 then emit (BarChart (evolucao_por_estado
                                        (gdf_para_evolucao gdf estados_selecionados)))
                 else ret tt)
            end
      end
  end.

(** The areas of a table are doubles. *)
Definition float64_areas (gdf : list Feature) : Prop :=
  forall f, In f gdf -> is_float64 (area_km2 f).

(** What the encoder makes of a table: area, intensity and elevation of each
    row, and intensity and colour of each row. *)
Definition encoded_levels (gdf : list Feature) : list (Q * Z * Z) :=
  map (fun e => (area_km2 (feature e), color_intensity e, elevation e))
      (layer_data (snd (create_choropleth_map gdf))).

Definition encoded_colors (gdf : list Feature) : list (Z * list Z) :=
  map (fun e => (color_intensity e, color e))
      (layer_data (snd (create_choropleth_map gdf))).

End Dashboard.

(** ** Two arithmetics to run the model on *)

(** Arithmetic without rounding. *)
Definition exact : Float64 :=
  {| is_float64 := fun _ => True;
     fsum := fun s => fold_left Qplus s 0%Q;
     fsub := Qminus; fmul := Qmult; fdiv := Qdiv |}.

(** IEEE 754 doubles, as the processor computes them. A rational enters as
    the quotient of its numerator by its denominator (itself when it is a
    double, both being below 2^53), and a double leaves as the rational it
    denotes, in lowest terms. A column is summed from its first value to its last. *)
Module Binary64.
Import PrimFloat FloatOps SpecFloat.

Definition of_Z (z : Z) : float :=
  match z with
  | Z0 => zero
  | Zpos _ => of_uint63 (Uint63.of_Z z)
  | Zneg p => opp (of_uint63 (Uint63.of_Z (Zpos p)))
  end.

Definition of_Q (q : Q) : float := (of_Z (Qnum q) / of_Z (Zpos (Qden q)))%float.

Definition to_Q (x : float) : Q :=
  match Prim2SF x with
  | S754_finite s m e =>
      let n := if s then Zneg m else Zpos m in
      if 0 <=? e then inject_Z (n * 2 ^ e)
      else Qred (n # Pos.pow 2 (Z.to_pos (- e)))
  | _ => 0%Q
  end.

Definition add (x y : Q) : Q := to_Q (of_Q x + of_Q y)%float.
Definition sub (x y : Q) : Q := to_Q (of_Q x - of_Q y)%float.
Definition mul (x y : Q) : Q := to_Q (of_Q x * of_Q y)%float.
Definition div (x y : Q) : Q := to_Q (of_Q x / of_Q y)%float.

End Binary64.

Definition binary64 : Float64 :=
  {| is_float64 := fun q => Binary64.to_Q (Binary64.of_Q q) == q;
     fsum := fun s => fold_left Binary64.add s 0%Q;
     fsub := Binary64.sub; fmul := Binary64.mul; fdiv := Binary64.div |}.

(** ** A backend to run the model on

    Geometries are points of the plane (a point is its own centroid), the
    reference systems are named by texts, reprojection leaves a point where
    it is, and a text is a number when it is written with decimal digits
    only. The arithmetic is a parameter. *)

Fixpoint digits_value (s : string) (acc : N) : option N :=
  match s with
  | EmptyString => Some acc
  | String c t =>
      let n := N_of_ascii c in
      if ((48 <=? n) && (n <=? 57))%N
      then digits_value t (10 * acc + (n - 48))%N
      else None
  end.

Definition parse_digits (s : string) : option Q :=
  match s with
  | EmptyString => None
  | _ => option_map (fun n => inject_Z (Z.of_N n)) (digits_value s 0%N)
  end.

Definition plane (arithmetic : Float64) : Backend :=
  {| Geom := Q * Q;
     CRS := string;
     is_epsg4326 := String.eqb "EPSG:4326";
     to_crs := fun _ g => Some g;
     centroid := fun g => g;
     parse_number := parse_digits;
     float64 := arithmetic |}.

Section Samples.
Variable arithmetic : Float64.
Let backend : Backend := plane arithmetic.

(** A row of a loaded table: index label, year, area, state. *)
Definition polygon (i : nat) (year : Z) (area : Q) (state : string) : @Feature backend :=
  @Build_Feature backend i year area (CStr state) (CStr state) (0, 0)%Q.

(** Areas 1.0 and 5.0. *)
Definition areas_1_5 : list (@Feature backend) :=
  [polygon 0 2020 1 "PA"; polygon 1 2020 5 "PA"].

(** Areas 1.0, 1.046875 and 2.0, all three doubles. *)
Definition areas_1_67over64_2 : list (@Feature backend) :=
  [polygon 0 2020 1 "PA"; polygon 1 2020 (67 # 64) "PA"; polygon 2 2020 2 "MT"].

(** Areas 1.0, 1.015625 and 2.0, all three doubles. *)
Definition areas_1_65over64_2 : list (@Feature backend) :=
  [polygon 0 2020 1 "PA"; polygon 1 2020 (65 # 64) "PA"; polygon 2 2020 2 "MT"].

(** Areas 1.0, 24.0 and 41.0. *)
Definition areas_1_24_41 : list (@Feature backend) :=
  [polygon 0 2020 1 "PA"; polygon 1 2020 24 "PA"; polygon 2 2020 41 "MT"].

(** Two polygons of area 7.0. *)
Definition areas_7_7 : list (@Feature backend) :=
  [polygon 0 2020 7 "PA"; polygon 1 2021 7 "MT"].

(** 10,001 polygons, of areas 1, 2, ..., 10001. *)
Definition polygons_10001 : list (@Feature backend) :=
  map (fun i => polygon i 2020 (inject_Z (Z.of_nat (S i))) "PA") (seq 0 10001).

(** A raw row of three cells: year, area, state. *)
Definition raw_row (i : nat) (year area : cell) (state : string) : @RawRow backend :=
  @Build_RawRow backend i [year; area; CStr state] (0, 0)%Q.

(** A raw table with rows the loader must drop: a year that is no number
    (index 2), an area that is no number (3), a missing area (4), an area of
    zero (5) and a negative area (6); the year of row 1 is a text of digits
    and the year of row 7 has a fractional part. *)
Definition raw_prodes : @DataFrame backend :=
  @Build_DataFrame backend
    ["year"; "area_km"; "state"]%string
    [ raw_row 0 (CNum 2020) (CNum 10) "PA";
      raw_row 1 (CStr "2020") (CNum 5) "PA";
      raw_row 2 (CStr "n/a") (CNum 4) "PA";
      raw_row 3 (CNum 2021) (CStr "?") "MT";
      raw_row 4 (CNum 2021) CNaN "MT";
      raw_row 5 (CNum 2021) (CNum 0) "MT";
      raw_row 6 (CNum 2021) (CNum (-2)) "MT";
      raw_row 7 (CNum (20215 # 10)) (CNum 3) "MT" ]
    (Some "EPSG:4674"%string).



(** The three features (2020, 10.0), (2020, 5.0), (2021, 3.0). *)
Definition raw_three : @DataFrame backend :=
  @Build_DataFrame backend
    ["year"; "area_km"; "state"]%string
    [ raw_row 0 (CNum 2020) (CNum 10) "PA";
      raw_row 1 (CNum 2020) (CNum 5) "MT";
      raw_row 2 (CNum 2021) (CNum 3) "PA" ]
    None.

(** The table the loader makes of [raw_three]. *)
Definition gdf_three : @GeoDataFrame backend :=
  @Build_GeoDataFrame backend
    ["ano"; "area_km2"; "uf"; "municipio"]%string
    [polygon 0 2020 10 "PA"; polygon 1 2020 5 "MT"; polygon 2 2021 3 "PA"].

(** The table the loader makes of [raw_prodes]: the rows 0, 1 and 7. *)
Definition gdf_prodes : @GeoDataFrame backend :=
  @Build_GeoDataFrame backend
    ["ano"; "area_km2"; "uf"; "municipio"]%string
    [polygon 0 2020 10 "PA"; polygon 1 2020 5 "PA"; polygon 7 2021 3 "MT"].

(** Rows whose sums by year and state tie: 15 for AC, MT and PA in 2020. *)
Definition polygons_with_ties : list (@Feature backend) :=
  [polygon 0 2020 10 "PA"; polygon 1 2020 5 "AM"; polygon 2 2021 3 "MT";
   polygon 3 2020 5 "PA"; polygon 4 2020 15 "MT"; polygon 5 2020 15 "AC"].

End Samples.

(** ** The formulas as the specification writes them *)

(** The intensity and the elevation the specification's formulas give, for
    a reading [round] of its rounding. *)
Definition specified_intensity (round : Q -> Z) (amin amax area : Q) : Z :=
  round ((area - amin) / (amax - amin) * 255)%Q.

Definition specified_elevation (round : Q -> Z) (amin amax area : Q) : Z :=
  round ((area - amin) / (amax - amin) * 50000)%Q + 5000.

(** The colour the specification's formula gives. *)
Definition specified_color (round : Q -> Z) (intensity : Z) : list Z :=
  [255; round (255 - inject_Z intensity * (1 # 2))%Q; 0; 200].

(** ** The statistics of the page *)

(** [Series.idxmax()] and [Series.idxmin()] on a column of values with its
    labels: the label of the first row that holds the largest (smallest)
    value. [None]: the ValueError raised on a column without row. *)
Definition idxmax {K : Type} (tbl : list (K * Q)) : option K :=
  match tbl with
  | [] => None
  | r :: t =>
      Some (fst (fold_left (fun best x => if Qgtb (snd x) (snd best) then x else best) t r))
  end.

Definition idxmin {K : Type} (tbl : list (K * Q)) : option K :=
  match tbl with
  | [] => None
  | r :: t =>
      Some (fst (fold_left (fun best x => if Qgtb (snd best) (snd x) then x else best) t r))
  end.

(** [Series.unique()]: the values in order of first appearance; and
    [Series.nunique()]: how many there are, the missing value left out. *)
Fixpoint unique (l : list cell) : list cell :=
  match l with
  | [] => []
  | c :: t => c :: filter (fun x => negb (cell_eqb c x)) (unique t)
  end.

Definition nunique (l : list cell) : nat :=
  length (unique (filter (fun c => negb (is_nan c)) l)).

Section Statistics.
Context {backend : Backend}.

(** Lines 209-210: the ends of the slider, [int(gdf['ano'].min())] and
    [int(gdf['ano'].max())]; the slider starts at [ano_max] (line 216).
    [None]: [int] raises on the NaN of a table without row. *)
Definition ano_min (gdf : list Feature) : option Z :=
  match gdf with
  | [] => None
  | f :: t => Some (fold_left Z.min (map ano t) (ano f))
  end.

Definition ano_max (gdf : list Feature) : option Z :=
  match gdf with
  | [] => None
  | f :: t => Some (fold_left Z.max (map ano t) (ano f))
  end.

(** Line 294: [gdf_filtered['uf'].nunique()]. *)
Definition num_estados (gdf_filtered : list Feature) : nat :=
  nunique (map uf gdf_filtered).

(** Lines 456-459: the years of the largest and of the smallest total of the
    historical series. *)
Definition ano_maior (gdf : list Feature) : option Z :=
  idxmax (evolucao_temporal gdf).

Definition ano_menor (gdf : list Feature) : option Z :=
  idxmin (evolucao_temporal gdf).

(** Lines 520-524: [gdf_para_evolucao.groupby('uf')['area_km2'].sum().idxmax()];
    [groupby] leaves out the rows whose state is missing. *)
Definition estado_mais_desmatado (gdf_para_evolucao : list Feature) : option cell :=
  idxmax (groupby_sum cell_compare
            (map (fun f => (uf f, area_km2 f))
                 (filter (fun f => negb (is_nan (uf f))) gdf_para_evolucao))).

(** Lines 527-531: [gdf_para_evolucao.groupby('ano')['area_km2'].sum().idxmax()]. *)
Definition ano_pico_geral (gdf_para_evolucao : list Feature) : option Z :=
  idxmax (groupby_sum Z.compare
            (map (fun f => (ano f, area_km2 f)) gdf_para_evolucao)).

End Statistics.

(** ** Monotone rounding *)

(** Two more laws of correctly rounded arithmetic: a quotient grows with its
    numerator and a product with its first factor. *)
Record Float64Monotone (ops : Float64) : Prop := {
  fdiv_mono :
    forall x x' y, is_float64 x -> is_float64 x' -> is_float64 y ->
                   (x <= x')%Q -> (0 < y)%Q -> (fdiv x y <= fdiv x' y)%Q;
  fmul_mono :
    forall r r' c, is_float64 r -> is_float64 r' -> is_float64 c ->
                   (r <= r')%Q -> (0 <= c)%Q -> (fmul r c <= fmul r' c)%Q
}.

(** ** The preparation script: [simplify.py] *)

Section Simplify.
Context {backend : Backend}.

(** shapely's [simplify(tolerance=0.001, preserve_topology=True)]. *)
Variable simplify_geometry : Geom -> Geom.

(** Line 16, without ['geometry']: the geometry of a row is no cell of it,
    and the table read labels its geometries [geometry]. *)
Definition cols_to_keep : list string :=
  ["year"; "area_km"; "state"; "satellite"; "path_row"]%string.

(** [gdf[labels]]: the columns of these labels, in the order of [labels]
    (every column of a label several columns have); reference system, index
    and geometry are kept. [None]: the KeyError raised when a label is
    missing. *)
Definition getitem_columns (labels : list string) (gdf : DataFrame) : option DataFrame :=
  if forallb (fun l => label_in l (columns gdf)) labels
  then
    let ps := flat_map (fun l => positions l (columns gdf) 0) labels in
    Some {| columns := map (fun p => nth p (columns gdf) EmptyString) ps;
            rows := map (fun r => {| raw_index := raw_index r;
                                     raw_cells := map (fun p => cell_at p r) ps;
                                     raw_geometry := raw_geometry r |})
                        (rows gdf);
            crs := crs gdf |}
  else None.

(** Lines 12-17: the table the script writes, from the table it read. [None]:
    the script stops on the KeyError and writes no file. *)
Definition simplify (gdf : DataFrame) : option DataFrame :=
  let gdf :=
    {| columns := columns gdf;
       rows := map (fun r => {| raw_index := raw_index r;
                                raw_cells := raw_cells r;
                                raw_geometry := simplify_geometry (raw_geometry r) |})
                   (rows gdf);
       crs := crs gdf |} in
  getitem_columns cols_to_keep gdf.

End Simplify.

(** ** More tables to run the model on *)

Section MoreSamples.
Variable arithmetic : Float64.
Let backend : Backend := plane arithmetic.

(** A raw table with the year and the area only. *)
Definition raw_year_area_only : @DataFrame backend :=
  @Build_DataFrame backend
    ["year"; "area_km"]%string
    [ @Build_RawRow backend 0 [CNum 2020; CNum 10] (0, 0)%Q ]
    None.

(** A raw table that has a column [ano] beside the column [year]. *)
Definition raw_year_and_ano : @DataFrame backend :=
  @Build_DataFrame backend
    ["year"; "ano"; "area_km"; "state"]%string
    [ @Build_RawRow backend 0 [CNum 2020; CNum 2020; CNum 10; CStr "PA"%string] (0, 0)%Q ]
    None.


(** A raw table with years that are no int64: 1e19 and -1e19; the year of
    the row 2 is the largest double below 2^63. *)
Definition raw_huge_year : @DataFrame backend :=
  @Build_DataFrame backend
    ["year"; "area_km"; "state"]%string
    [ raw_row arithmetic 0 (CNum 10000000000000000000) (CNum 10) "PA";
      raw_row arithmetic 1 (CNum (-10000000000000000000)) (CNum 5) "PA";
      raw_row arithmetic 2 (CNum 9223372036854774784) (CNum 3) "MT" ]
    None.

(** A raw table whose rows are all dropped: an area of zero and a year that
    is no number. *)
Definition raw_no_valid_row : @DataFrame backend :=
  @Build_DataFrame backend
    ["year"; "area_km"; "state"]%string
    [ raw_row arithmetic 0 (CNum 2020) (CNum 0) "PA";
      raw_row arithmetic 1 (CStr "n/a") (CNum 4) "MT" ]
    None.

(** A raw table with a row whose state is missing; and the table the loader
    makes of it. *)
Definition raw_missing_state : @DataFrame backend :=
  @Build_DataFrame backend
    ["year"; "area_km"; "state"]%string
    [ raw_row arithmetic 0 (CNum 2020) (CNum 10) "PA";
      @Build_RawRow backend 1 [CNum 2021; CNum 3; CNaN] (0, 0)%Q ]
    None.

Definition gdf_missing_state : @GeoDataFrame backend :=
  @Build_GeoDataFrame backend
    ["ano"; "area_km2"; "uf"; "municipio"]%string
    [ polygon arithmetic 0 2020 10 "PA";
      @Build_Feature backend 1 2021 3 CNaN CNaN (0, 0)%Q ].

(** Rows without state. *)
Definition polygons_without_state : list (@Feature backend) :=
  [ @Build_Feature backend 0 2020 10 CNaN CNaN (0, 0)%Q;
    @Build_Feature backend 1 2021 3 CNaN CNaN (0, 0)%Q ].

(** A raw row with the columns of the PRODES file. *)
Definition prodes_row (i : nat) (state path_row : string) (year area : Q) (x y : Q) :
  @RawRow backend :=
  @Build_RawRow backend i
    [CStr state; CStr path_row; CStr "desmatamento"; CNum year; CNum area;
     CStr "Landsat-8"]%string
    (x, y).

(** A table as [convert.py] writes it: the row 1 has no area. *)
Definition raw_deforestation : @DataFrame backend :=
  @Build_DataFrame backend
    ["state"; "path_row"; "main_class"; "year"; "area_km"; "satellite"]%string
    [ prodes_row 0 "PA" "22463" 2020 10 (1 # 3) (1 # 7);
      prodes_row 1 "MT" "22768" 2020 0 (2 # 3) (2 # 7);
      prodes_row 2 "PA" "22463" 2021 3 (4 # 3) (4 # 7) ]
    (Some "EPSG:4674"%string).

(** A simplification of points: the coordinates without their fractional
    part. *)
Definition truncate_point (g : Q * Q) : Q * Q :=
  (inject_Z (astype_int (fst g)), inject_Z (astype_int (snd g))).

(** What [simplify.py] writes of [raw_deforestation]. *)
Definition light_deforestation : @DataFrame backend :=
  @Build_DataFrame backend
    ["year"; "area_km"; "state"; "satellite"; "path_row"]%string
    [ @Build_RawRow backend 0
        [CNum 2020; CNum 10; CStr "PA"; CStr "Landsat-8"; CStr "22463"]%string (0, 0)%Q;
      @Build_RawRow backend 1
        [CNum 2020; CNum 0; CStr "MT"; CStr "Landsat-8"; CStr "22768"]%string (0, 0)%Q;
      @Build_RawRow backend 2
        [CNum 2021; CNum 3; CStr "PA"; CStr "Landsat-8"; CStr "22463"]%string (1, 0)%Q ]
    (Some "EPSG:4674"%string).

(** The tables the loader makes of [raw_deforestation] and of
    [light_deforestation]. *)
Definition gdf_deforestation : @GeoDataFrame backend :=
  @Build_GeoDataFrame backend
    ["uf"; "path_row"; "classe_principal"; "ano"; "area_km2"; "satelite";
     "municipio"]%string
    [ @Build_Feature backend 0 2020 10 (CStr "PA") (CStr "22463") (1 # 3, 1 # 7)%Q;
      @Build_Feature backend 2 2021 3 (CStr "PA") (CStr "22463") (4 # 3, 4 # 7)%Q ].

Definition gdf_light : @GeoDataFrame backend :=
  @Build_GeoDataFrame backend
    ["ano"; "area_km2"; "uf"; "satelite"; "path_row"; "municipio"]%string
    [ @Build_Feature backend 0 2020 10 (CStr "PA") (CStr "22463") (0, 0)%Q;
      @Build_Feature backend 2 2021 3 (CStr "PA") (CStr "22463") (1, 0)%Q ].

End MoreSamples.

(** * Properties *)

(** ** Numbers *)

Section NumberFacts.
Local Open Scope Q_scope.

Lemma astype_int_floor (q : Q) : 0 <= q -> astype_int q = Qfloor q.
Proof.
  destruct q as [n d]; unfold astype_int, Qfloor, Qle; simpl; intros H.
  apply Z.quot_div_nonneg; lia.
Qed.

Lemma astype_int_range (q : Q) (n : Z) :
  0 <= q -> q <= inject_Z n -> (0 <= astype_int q <= n)%Z.
Proof.
  intros H0 Hn. rewrite (astype_int_floor q H0). split.
  - change 0%Z with (Qfloor 0). now apply Qfloor_resp_le.
  - rewrite <- (Qfloor_Z n). now apply Qfloor_resp_le.
Qed.

Lemma astype_int_eq (p q : Q) : 0 <= p -> p == q -> astype_int p = astype_int q.
Proof.
  intros H0 E. rewrite !astype_int_floor; [now apply Qfloor_comp | | ]; lra.
Qed.

(** The cast to int64 gives an int64, and the integer part when it is
    one. *)
Lemma astype_int64_range (q : Q) : (int64_min <= astype_int64 q <= int64_max)%Z.
Proof.
  unfold astype_int64. cbv zeta.
  destruct (Z.leb_spec int64_min (astype_int q));
    destruct (Z.leb_spec (astype_int q) int64_max); simpl;
    unfold int64_min, int64_max in *; lia.
Qed.

Lemma astype_int64_in_range (q : Q) :
  (int64_min <= astype_int q <= int64_max)%Z -> astype_int64 q = astype_int q.
Proof.
  intros [Hlo Hhi]. unfold astype_int64. cbv zeta.
  apply Z.leb_le in Hlo. apply Z.leb_le in Hhi. now rewrite Hlo, Hhi.
Qed.

(** Arithmetic without rounding has the laws. *)
Lemma exact_laws : Float64Laws exact.
Proof.
  split; simpl; try exact (fun _ _ => I); try exact (fun _ _ _ _ => I).
  - intros a b _ _ H. lra.
  - intros a b _ _ H. lra.
  - intros a a' b _ _ _ H. lra.
  - intros a b _ _ H. rewrite H. ring.
  - intros x y _ _ H0 H1 Hy. split.
    + apply Qle_shift_div_l; lra.
    + apply Qle_shift_div_r; lra.
  - intros x y _ _ H Hy. rewrite H. field. lra.
  - intros x y _ _ H Hy. rewrite H. field. lra.
  - intros r c _ _ H0 H1 Hc. split; nra.
  - intros r c _ _ H. rewrite H. ring.
  - intros r c _ _ H. rewrite H. ring.
  - intros x _. reflexivity.
Qed.

Lemma Qgtb_lt (a b : Q) : Qgtb a b = true <-> b < a.
Proof.
  unfold Qgtb. rewrite Qgt_alt. destruct (a ?= b); split; congruence.
Qed.

Lemma Qgtb_le (a b : Q) : Qgtb a b = false <-> a <= b.
Proof.
  unfold Qgtb. rewrite Qle_alt. destruct (a ?= b); split; congruence.
Qed.

Lemma Qmin_cases (x y : Q) : Qmin x y = x \/ Qmin x y = y.
Proof. unfold Qmin, GenericMinMax.gmin. destruct (x ?= y); auto. Qed.

Lemma Qmax_cases (x y : Q) : Qmax x y = x \/ Qmax x y = y.
Proof. unfold Qmax, GenericMinMax.gmax. destruct (x ?= y); auto. Qed.

Lemma fold_min_spec (t : list Q) (x : Q) :
  In (fold_left Qmin t x) (x :: t) /\
  Forall (fun y => fold_left Qmin t x <= y) (x :: t).
Proof.
  revert x; induction t as [|y t IH]; intros x; simpl.
  - split; [now left | constructor; [lra | constructor]].
  - destruct (IH (Qmin x y)) as [Hin Hall]. split.
    + destruct Hin as [E | Hin]; [| now right; right].
      rewrite <- E. destruct (Qmin_cases x y) as [-> | ->]; auto.
    + inversion Hall as [| ? ? Hm Ht]; subst.
      pose proof (Q.le_min_l x y). pose proof (Q.le_min_r x y).
      repeat constructor; try lra. exact Ht.
Qed.

Lemma fold_max_spec (t : list Q) (x : Q) :
  In (fold_left Qmax t x) (x :: t) /\
  Forall (fun y => y <= fold_left Qmax t x) (x :: t).
Proof.
  revert x; induction t as [|y t IH]; intros x; simpl.
  - split; [now left | constructor; [lra | constructor]].
  - destruct (IH (Qmax x y)) as [Hin Hall]. split.
    + destruct Hin as [E | Hin]; [| now right; right].
      rewrite <- E. destruct (Qmax_cases x y) as [-> | ->]; auto.
    + inversion Hall as [| ? ? Hm Ht]; subst.
      pose proof (Q.le_max_l x y). pose proof (Q.le_max_r x y).
      repeat constructor; try lra. exact Ht.
Qed.

(** [Series.min()] is a value of the column and a lower bound of it. *)
Lemma series_min_spec (s : list Q) (m : Q) :
  series_min s = Some m -> In m s /\ Forall (fun y => m <= y) s.
Proof.
  destruct s as [|x t]; simpl; [discriminate |].
  intros [= <-]. apply fold_min_spec.
Qed.

Lemma series_max_spec (s : list Q) (m : Q) :
  series_max s = Some m -> In m s /\ Forall (fun y => y <= m) s.
Proof.
  destruct s as [|x t]; simpl; [discriminate |].
  intros [= <-]. apply fold_max_spec.
Qed.

Lemma series_min_nonempty (s : list Q) : s <> [] -> exists m, series_min s = Some m.
Proof. destruct s; [congruence | simpl; eauto]. Qed.

Lemma series_max_nonempty (s : list Q) : s <> [] -> exists m, series_max s = Some m.
Proof. destruct s; [congruence | simpl; eauto]. Qed.

End NumberFacts.

(** ** Stable sorting *)

Section StableSortFacts.
Context {A : Type}.
Variable before : A -> A -> bool.

Lemma insert_sorted_perm (x : A) (l : list A) :
  Permutation (insert_sorted before x l) (x :: l).
Proof.
  induction l as [|y t IH]; simpl; [reflexivity |].
  destruct (before y x); [| reflexivity].
  rewrite IH. apply perm_swap.
Qed.

Lemma stable_sort_perm (l : list A) : Permutation (stable_sort before l) l.
Proof.
  induction l as [|x t IH]; simpl; [constructor |].
  rewrite insert_sorted_perm. now constructor.
Qed.

Lemma stable_sort_length (l : list A) : length (stable_sort before l) = length l.
Proof. apply Permutation_length, stable_sort_perm. Qed.

(** Stability: among elements none of which has to come before another, the
    input order is kept. *)
Lemma insert_sorted_filter (P : A -> bool) (x : A) (l : list A) :
  (forall y, P y = true -> P x = true -> before y x = false) ->
  filter P (insert_sorted before x l) = filter P (x :: l).
Proof.
  intros HP. induction l as [|y t IH]; [reflexivity |].
  cbn [insert_sorted]. destruct (before y x) eqn:E; [| reflexivity].
  cbn [filter] in *. rewrite IH.
  destruct (P y) eqn:Py, (P x) eqn:Px; try reflexivity.
  rewrite (HP y Py eq_refl) in E. discriminate.
Qed.

Lemma stable_sort_filter (P : A -> bool) (l : list A) :
  (forall x y, P x = true -> P y = true -> before x y = false) ->
  filter P (stable_sort before l) = filter P l.
Proof.
  intros HP. induction l as [|x t IH]; [reflexivity |].
  cbn [stable_sort fold_right]. fold (stable_sort before t).
  rewrite insert_sorted_filter by (intros; now apply HP).
  cbn [filter]. now rewrite IH.
Qed.

(** [before] is a strict weak order: the three laws the sort relies on. *)
Hypothesis before_irrefl : forall x, before x x = false.
Hypothesis before_trans :
  forall x y z, before x y = true -> before y z = true -> before x z = true.
Hypothesis before_comparison :
  forall x y z, before x z = true -> before x y = true \/ before y z = true.

Lemma before_asym (x y : A) : before x y = true -> before y x = false.
Proof.
  intros H. destruct (before y x) eqn:E; [| reflexivity].
  rewrite <- (before_irrefl x). symmetry. now apply before_trans with y.
Qed.

(** In the output no element has to come before an earlier one. *)
Lemma insert_sorted_sorted (x : A) (l : list A) :
  StronglySorted (fun a b => before b a = false) l ->
  StronglySorted (fun a b => before b a = false) (insert_sorted before x l).
Proof.
  induction 1 as [|y t Hs IH Hy]; simpl; [repeat constructor |].
  destruct (before y x) eqn:E.
  - constructor; [exact IH |].
    rewrite Forall_forall in *. intros z Hz.
    apply (Permutation_in _ (insert_sorted_perm x t)) in Hz.
    destruct Hz as [<- | Hz]; [now apply before_asym | now apply Hy].
  - constructor; [now constructor |].
    constructor; [exact E |].
    rewrite Forall_forall in *. intros z Hz.
    destruct (before z x) eqn:Ezx; [| reflexivity].
    destruct (before_comparison z y x Ezx) as [H | H].
    + rewrite (Hy z Hz) in H. discriminate.
    + congruence.
Qed.

Lemma stable_sort_sorted (l : list A) :
  StronglySorted (fun a b => before b a = false) (stable_sort before l).
Proof.
  induction l as [|x t IH]; simpl; [constructor |].
  now apply insert_sorted_sorted.
Qed.

(** Sorting a list that was already in the order [S] gives the
    lexicographic order: first [before], then [S] among the elements [before]
    does not separate. *)
Variable S : A -> A -> Prop.

Lemma insert_sorted_refined (x : A) (l : list A) :
  StronglySorted (refined before S) l -> Forall (S x) l ->
  StronglySorted (refined before S) (insert_sorted before x l).
Proof.
  induction 1 as [|y t Hs IH Hy]; intros HS; simpl; [repeat constructor |].
  inversion HS as [| ? ? Sxy St]; subst.
  destruct (before y x) eqn:E.
  - constructor; [now apply IH |].
    rewrite Forall_forall in *. intros z Hz.
    apply (Permutation_in _ (insert_sorted_perm x t)) in Hz.
    destruct Hz as [<- | Hz]; [now left | now apply Hy].
  - constructor; [now constructor |].
    constructor.
    + destruct (before x y) eqn:Exy; [now left | now right].
    + rewrite Forall_forall in *. intros z Hz.
      destruct (before x z) eqn:Exz; [now left |]. right.
      assert (Ezx : before z x = false).
      { destruct (before z x) eqn:Ezx; [| reflexivity].
        destruct (before_comparison z y x Ezx) as [H | H]; [| congruence].
        destruct (Hy z Hz) as [Hyz | (_ & Hzy & _)]; [| congruence].
        destruct (before_comparison y x z Hyz); congruence. }
      repeat split; auto.
Qed.

Lemma stable_sort_refined (l : list A) :
  StronglySorted S l -> StronglySorted (refined before S) (stable_sort before l).
Proof.
  induction 1 as [|x t Hs IH Hx]; simpl; [constructor |].
  apply insert_sorted_refined; [exact IH |].
  rewrite Forall_forall in *. intros z Hz. apply Hx.
  now apply (Permutation_in _ (stable_sort_perm t)).
Qed.

End StableSortFacts.

(** ** The [n] largest rows of a table *)

Section LargestFacts.
Context {A : Type}.
Variable key : A -> Q.

Let before (x y : A) : bool := Qgtb (key x) (key y).
Let above (v : Q) (x : A) : bool := Qgtb (key x) v.
Let level (v : Q) (x : A) : bool := Qeq_bool (key x) v.
Let reaches (v : Q) (x : A) : bool := Qle_bool v (key x).

Lemma filter_perm (P : A -> bool) (l l' : list A) :
  Permutation l l' -> Permutation (filter P l) (filter P l').
Proof.
  induction 1 as [| x l l' _ IH | x y l | l l' l'' _ IH1 _ IH2]; simpl.
  - constructor.
  - destruct (P x); [now constructor | exact IH].
  - destruct (P x), (P y); try reflexivity. apply perm_swap.
  - now transitivity (filter P l').
Qed.

Lemma filter_all (P : A -> bool) (l : list A) :
  Forall (fun x => P x = true) l -> filter P l = l.
Proof.
  induction 1 as [|x t Hx _ IH]; simpl; [reflexivity |]. now rewrite Hx, IH.
Qed.

Lemma filter_none (P : A -> bool) (l : list A) :
  Forall (fun x => P x = false) l -> filter P l = [].
Proof.
  induction 1 as [|x t Hx _ IH]; simpl; [reflexivity |]. now rewrite Hx, IH.
Qed.

Lemma filter_lt_length (P : A -> bool) (l : list A) (x : A) :
  In x l -> P x = false -> (length (filter P l) < length l)%nat.
Proof.
  induction l as [|y t IH]; simpl; [tauto |].
  intros [-> | Hin] Hx.
  - rewrite Hx. pose proof (filter_length_le P t). lia.
  - specialize (IH Hin Hx). destruct (P y); simpl; lia.
Qed.

(** A row is above the level, at the level, or below it: the rows that reach
    [v] split into the first two kinds. *)
Lemma reaches_split (v : Q) (l : list A) :
  length (filter (reaches v) l)
  = (length (filter (above v) l) + length (filter (level v) l))%nat.
Proof.
  induction l as [|x t IH]; simpl; [reflexivity |].
  unfold reaches, above, level in *.
  destruct (Qle_bool v (key x)) eqn:Hle, (Qgtb (key x) v) eqn:Hgt,
           (Qeq_bool (key x) v) eqn:Heq; simpl; try lia; exfalso.
  - apply Qgtb_lt in Hgt. apply Qeq_bool_iff in Heq. lra.
  - apply Qle_bool_iff in Hle. apply Qgtb_le in Hgt.
    apply Qeq_bool_neq in Heq. apply Heq. lra.
  - apply Qgtb_lt in Hgt. apply Qeq_bool_iff in Heq. lra.
  - apply Qgtb_lt in Hgt.
    assert (H : ~ (v <= key x)%Q) by (rewrite <- Qle_bool_iff; congruence).
    lra.
  - apply Qeq_bool_iff in Heq.
    assert (H : ~ (v <= key x)%Q) by (rewrite <- Qle_bool_iff; congruence).
    lra.
Qed.

Lemma sorted_cut (R : A -> A -> Prop) (n : nat) (s : list A) :
  StronglySorted R s ->
  forall x y, In x (firstn n s) -> In y (skipn n s) -> R x y.
Proof.
  intros Hs; revert n. induction Hs as [|a t Ht IH Ha]; intros n x y.
  - rewrite firstn_nil. simpl. tauto.
  - destruct n as [|n]; simpl; [tauto |].
    intros [<- | Hx] Hy.
    + rewrite Forall_forall in Ha. apply Ha.
      rewrite <- (firstn_skipn n t). apply in_or_app. now right.
    + now apply (IH n).
Qed.

Lemma last_In (l : list A) (d : A) : l <> [] -> In (last l d) l.
Proof.
  induction l as [|a t IH]; [congruence | intros _].
  destruct t as [|b t']; [now left | right].
  change (last (a :: b :: t') d) with (last (b :: t') d).
  apply IH. discriminate.
Qed.

Lemma sorted_last (R : A -> A -> Prop) (s : list A) (d : A) :
  StronglySorted R s ->
  forall x, In x s -> x = last s d \/ R x (last s d).
Proof.
  induction 1 as [|a t Ht IH Ha]; intros x; [simpl; tauto |].
  intros [<- | Hx].
  - destruct t as [|b t']; [now left | right].
    rewrite Forall_forall in Ha. apply Ha.
    change (last (a :: b :: t') d) with (last (b :: t') d).
    apply last_In. discriminate.
  - destruct t as [|b t']; [destruct Hx |].
    change (last (a :: b :: t') d) with (last (b :: t') d). now apply IH.
Qed.

Lemma In_firstn (n : nat) (l : list A) (x : A) : In x (firstn n l) -> In x l.
Proof.
  intros H. rewrite <- (firstn_skipn n l). apply in_or_app. now left.
Qed.

Lemma sorted_firstn (R : A -> A -> Prop) (n : nat) (s : list A) :
  StronglySorted R s -> StronglySorted R (firstn n s).
Proof.
  intros Hs; revert n. induction Hs as [|a t Ht IH Ha]; intros [|n]; simpl;
    try constructor; [apply IH |].
  rewrite Forall_forall in *. intros x Hx. apply Ha. now apply In_firstn in Hx.
Qed.

(** What the first [n] rows of the table sorted by descending key are. The
    level [v] is the key of the last row kept. *)
Lemma largest_spec (n : nat) (l : list A) (d : A) :
  (0 < n <= length l)%nat ->
  let s := stable_sort before l in
  let kept := firstn n s in
  let v := key (last kept d) in
  length kept = n /\
  Forall (fun x => (v <= key x)%Q) kept /\
  Forall (fun y => (key y <= v)%Q) (skipn n s) /\
  (length (filter (above v) l) < n <= length (filter (reaches v) l))%nat /\
  Permutation (filter (above v) kept) (filter (above v) l) /\
  filter (level v) kept
  = firstn (n - length (filter (above v) l)) (filter (level v) l).
Proof.
  intros Hn s kept v.
  assert (Hlen : length kept = n).
  { apply firstn_length_le. unfold s. rewrite stable_sort_length. lia. }
  assert (Hs : StronglySorted (fun a b => (key b <= key a)%Q) s).
  { assert (H0 := stable_sort_sorted before). unfold s.
    eapply StronglySorted_ind with
      (P := StronglySorted (fun a b => (key b <= key a)%Q)).
    - constructor.
    - intros a t _ IH Ha. constructor; [exact IH |].
      eapply Forall_impl; [| exact Ha]. intros b Hb. apply Qgtb_le. exact Hb.
    - apply H0.
      + intros x. apply Qgtb_le. lra.
      + unfold before. intros x y z Hxy Hyz.
        apply Qgtb_lt in Hxy, Hyz. apply Qgtb_lt. lra.
      + unfold before. intros x y z Hxz. apply Qgtb_lt in Hxz.
        destruct (Qgtb (key x) (key y)) eqn:E; [now left | right].
        apply Qgtb_le in E. apply Qgtb_lt. lra. }
  assert (Hne : kept <> []).
  { intros E. rewrite E in Hlen. simpl in Hlen. lia. }
  assert (Hlast : In (last kept d) kept) by now apply last_In.
  assert (Hkept : Forall (fun x => (v <= key x)%Q) kept).
  { rewrite Forall_forall. intros x Hx.
    destruct (sorted_last _ kept d (sorted_firstn _ n s Hs) x Hx) as [-> | H].
    - unfold v. lra.
    - exact H. }
  assert (Hrest : Forall (fun y => (key y <= v)%Q) (skipn n s)).
  { rewrite Forall_forall. intros y Hy.
    exact (sorted_cut _ n s Hs _ _ Hlast Hy). }
  assert (Hsplit : forall P, filter P s = filter P kept ++ filter P (skipn n s)).
  { intros P. rewrite <- filter_app. unfold kept. now rewrite firstn_skipn. }
  assert (Hperm : forall P, Permutation (filter P s) (filter P l)).
  { intros P. apply filter_perm, stable_sort_perm. }
  assert (Habove : filter (above v) s = filter (above v) kept).
  { rewrite Hsplit, (filter_none (above v) (skipn n s)); [apply app_nil_r |].
    eapply Forall_impl; [| exact Hrest]. intros y Hy. now apply Qgtb_le. }
  assert (Hreach : filter (reaches v) kept = kept).
  { apply filter_all. eapply Forall_impl; [| exact Hkept].
    intros x Hx. now apply Qle_bool_iff. }
  assert (Ha : length (filter (above v) l) = length (filter (above v) kept)).
  { rewrite <- Habove. symmetry. apply Permutation_length, Hperm. }
  repeat split.
  - exact Hlen.
  - exact Hkept.
  - exact Hrest.
  - rewrite Ha, <- Hlen. apply filter_lt_length with (last kept d); [exact Hlast |].
    apply Qgtb_le. unfold v. lra.
  - rewrite <- (Permutation_length (Hperm (reaches v))), Hsplit, length_app, Hreach.
    lia.
  - rewrite <- Habove. apply Hperm.
  - rewrite <- (stable_sort_filter before (level v) l).
    + fold s. rewrite (Hsplit (level v)).
      assert (E : (n - length (filter (above v) l))%nat
                  = length (filter (level v) kept)).
      { pose proof (reaches_split v kept) as H. rewrite Hreach, Hlen in H. lia. }
      rewrite E, firstn_app, firstn_all, Nat.sub_diag, firstn_O.
      symmetry. apply app_nil_r.
    + intros x y Hx Hy. apply Qeq_bool_iff in Hx, Hy. apply Qgtb_le. lra.
Qed.

End LargestFacts.

(** ** The visual encoder *)

Section EncoderFacts.
Context {backend : Backend}.
Hypothesis laws : Float64Laws float64.

(** 255, 50000 and the ratio every normalisation starts from are doubles;
    the ratio lies in the unit interval, is 0 at the smallest area and 1 at
    the largest. *)
Lemma factor_float64 (c : Z) : 0 <= c <= 50000 -> is_float64 (inject_Z c).
Proof.
  intros H. apply (float64_int _ laws).
  assert (50000 <= 2 ^ 53) by (vm_compute; discriminate). lia.
Qed.

Lemma ratio_float64 (amin amax a : Q) :
  is_float64 amin -> is_float64 amax -> is_float64 a ->
  is_float64 (fdiv (fsub a amin) (fsub amax amin)).
Proof.
  intros Fmin Fmax Fa.
  apply (fdiv_float64 _ laws); now apply (fsub_float64 _ laws).
Qed.

Lemma ratio_unit_interval (amin amax a : Q) :
  is_float64 amin -> is_float64 amax -> is_float64 a ->
  (amin < amax)%Q -> (amin <= a)%Q -> (a <= amax)%Q ->
  (0 <= fdiv (fsub a amin) (fsub amax amin) <= 1)%Q.
Proof.
  intros Fmin Fmax Fa Hlt Hlo Hhi.
  apply (fdiv_unit _ laws); try now apply (fsub_float64 _ laws).
  - now apply (fsub_nonneg _ laws).
  - now apply (fsub_mono _ laws).
  - now apply (fsub_pos _ laws).
Qed.

Lemma ratio_at_min (amin amax a : Q) :
  is_float64 amin -> is_float64 amax -> is_float64 a ->
  (amin < amax)%Q -> a == amin -> fdiv (fsub a amin) (fsub amax amin) == 0.
Proof.
  intros Fmin Fmax Fa Hlt E.
  apply (fdiv_zero _ laws); try now apply (fsub_float64 _ laws).
  - now apply (fsub_same _ laws).
  - now apply (fsub_pos _ laws).
Qed.

Lemma ratio_at_max (amin amax a : Q) :
  is_float64 amin -> is_float64 amax -> is_float64 a ->
  (amin < amax)%Q -> a == amax -> fdiv (fsub a amin) (fsub amax amin) == 1.
Proof.
  intros Fmin Fmax Fa Hlt E.
  apply (fdiv_same _ laws); try now apply (fsub_float64 _ laws).
  - apply Qle_antisym; apply (fsub_mono _ laws); try assumption;
      rewrite E; apply Qle_refl.
  - now apply (fsub_pos _ laws).
Qed.

Lemma max_polygons_pos : (0 < max_polygons)%nat.
Proof. apply Nat.ltb_lt. vm_compute. reflexivity. Qed.

Lemma gdf_sample_small (gdf : list Feature) :
  (length gdf <= max_polygons)%nat -> gdf_sample gdf = ([], gdf).
Proof.
  intros H. unfold gdf_sample.
  destruct (Nat.ltb_spec max_polygons (length gdf)); [lia | reflexivity].
Qed.

Lemma gdf_sample_large (gdf : list Feature) :
  (max_polygons < length gdf)%nat ->
  gdf_sample gdf = ([WarningSample (length gdf)], nlargest max_polygons gdf).
Proof.
  intros H. unfold gdf_sample.
  destruct (Nat.ltb_spec max_polygons (length gdf)); [reflexivity | lia].
Qed.

Lemma nlargest_length (n : nat) (gdf : list Feature) :
  (n <= length gdf)%nat -> length (nlargest n gdf) = n.
Proof.
  intros H. unfold nlargest. apply firstn_length_le.
  now rewrite stable_sort_length.
Qed.

Lemma nlargest_In (n : nat) (gdf : list Feature) (f : Feature) :
  In f (nlargest n gdf) -> In f gdf.
Proof.
  unfold nlargest. intros H. apply In_firstn in H.
  exact (Permutation_in _ (stable_sort_perm _ gdf) H).
Qed.

Lemma gdf_sample_In (gdf : list Feature) (f : Feature) :
  In f (snd (gdf_sample gdf)) -> In f gdf.
Proof.
  destruct (Nat.le_gt_cases (length gdf) max_polygons) as [H | H].
  - now rewrite gdf_sample_small.
  - rewrite gdf_sample_large by exact H. apply nlargest_In.
Qed.

Lemma gdf_sample_nonempty (gdf : list Feature) :
  gdf <> [] -> snd (gdf_sample gdf) <> [].
Proof.
  intros Hne. destruct (Nat.le_gt_cases (length gdf) max_polygons) as [H | H].
  - now rewrite gdf_sample_small.
  - rewrite gdf_sample_large by exact H. simpl. intros E.
    apply (f_equal (@length _)) in E.
    rewrite nlargest_length in E by lia. discriminate E.
Qed.

Lemma create_choropleth_map_layer (gdf : list Feature) :
  let kept := snd (gdf_sample gdf) in
  layer_data (snd (create_choropleth_map gdf))
  = map (encode_row (series_min (map area_km2 kept))
                    (series_max (map area_km2 kept))) kept.
Proof.
  unfold create_choropleth_map, bind, ret.
  destruct (gdf_sample gdf) as [log kept]. reflexivity.
Qed.

Lemma create_choropleth_map_log (gdf : list Feature) :
  fst (create_choropleth_map gdf) = fst (gdf_sample gdf).
Proof.
  unfold create_choropleth_map, bind, ret.
  destruct (gdf_sample gdf) as [log kept]. simpl. apply app_nil_r.
Qed.

Lemma encode_row_feature (m M : option Q) (f : Feature) :
  feature (encode_row m M f) = f.
Proof. unfold encode_row. now destruct (normalise m M (area_km2 f)). Qed.

Lemma encode_row_normalise (m M : option Q) (f : Feature) :
  (color_intensity (encode_row m M f), elevation (encode_row m M f))
  = normalise m M (area_km2 f).
Proof. unfold encode_row. now destruct (normalise m M (area_km2 f)). Qed.

Lemma encode_row_color (m M : option Q) (f : Feature) :
  color (encode_row m M f) = color_of (color_intensity (encode_row m M f)).
Proof. unfold encode_row. now destruct (normalise m M (area_km2 f)). Qed.

(** Every row of the sample is encoded, in order. *)
Lemma create_choropleth_map_features (gdf : list Feature) :
  map feature (layer_data (snd (create_choropleth_map gdf)))
  = snd (gdf_sample gdf).
Proof.
  rewrite create_choropleth_map_layer. cbv zeta. rewrite map_map.
  erewrite map_ext; [apply map_id |]. intros f. apply encode_row_feature.
Qed.

(** An encoded row, seen from the row of the sample it encodes. *)
Lemma layer_row (gdf : list Feature) (e : Encoded) :
  In e (layer_data (snd (create_choropleth_map gdf))) ->
  let kept := snd (gdf_sample gdf) in
  In (feature e) kept /\
  e = encode_row (series_min (map area_km2 kept))
                 (series_max (map area_km2 kept)) (feature e).
Proof.
  rewrite create_choropleth_map_layer. cbv zeta. intros H.
  apply in_map_iff in H. destruct H as (f & <- & Hf).
  rewrite encode_row_feature. now split.
Qed.

(** The two branches of the normalisation, with their bounds. *)
Lemma normalise_spread (amin amax a : Q) :
  is_float64 amin -> is_float64 amax -> is_float64 a ->
  (amin < amax)%Q -> (amin <= a)%Q -> (a <= amax)%Q ->
  normalise (Some amin) (Some amax) a
  = (intensity_of amin amax a, elevation_of amin amax a) /\
  0 <= intensity_of amin amax a <= 255 /\
  5000 <= elevation_of amin amax a <= 55000.
Proof.
  intros Fmin Fmax Fa Hlt Hlo Hhi. unfold normalise.
  apply Qgtb_lt in Hlt as Hgt. rewrite Hgt.
  destruct (ratio_unit_interval amin amax a Fmin Fmax Fa Hlt Hlo Hhi) as [H0 H1].
  pose proof (ratio_float64 amin amax a Fmin Fmax Fa) as Fr.
  unfold intensity_of, elevation_of.
  set (r := fdiv (fsub a amin) (fsub amax amin)) in *. clearbody r.
  split; [reflexivity |]. split.
  - destruct (fmul_unit _ laws r 255 Fr (factor_float64 255 ltac:(lia)) H0 H1)
      as [Hp0 Hp1]; [lra |].
    now apply astype_int_range.
  - destruct (fmul_unit _ laws r 50000 Fr (factor_float64 50000 ltac:(lia)) H0 H1)
      as [Hp0 Hp1]; [lra |].
    assert (0 <= astype_int (fmul r 50000) <= 50000)
      by now apply astype_int_range.
    lia.
Qed.

Lemma normalise_uniform (amin amax a : Q) :
  ~ (amin < amax)%Q -> normalise (Some amin) (Some amax) a = (128, 10000).
Proof.
  intros H. unfold normalise.
  destruct (Qgtb amax amin) eqn:E; [| reflexivity].
  apply Qgtb_lt in E. contradiction.
Qed.

(** The bounds of the column a row of the sample lies within. *)
Lemma sample_bounds (kept : list Feature) (f : Feature) :
  In f kept ->
  exists amin amax,
    series_min (map area_km2 kept) = Some amin /\
    series_max (map area_km2 kept) = Some amax /\
    (amin <= area_km2 f <= amax)%Q.
Proof.
  intros Hf.
  assert (Hne : map area_km2 kept <> []) by (destruct kept; [destruct Hf | discriminate]).
  destruct (series_min_nonempty _ Hne) as [amin Hmin].
  destruct (series_max_nonempty _ Hne) as [amax Hmax].
  exists amin, amax. repeat split; try assumption.
  - apply series_min_spec in Hmin as [_ H]. rewrite Forall_forall in H.
    apply H. now apply in_map.
  - apply series_max_spec in Hmax as [_ H]. rewrite Forall_forall in H.
    apply H. now apply in_map.
Qed.

(** The areas of the sample, its smallest and its largest area are doubles
    when the areas of the table are. *)
Lemma sample_float64 (gdf : list Feature) (a : Q) :
  float64_areas gdf ->
  In a (map area_km2 (snd (gdf_sample gdf))) -> is_float64 a.
Proof.
  intros Hfloat Ha. apply in_map_iff in Ha. destruct Ha as (f & <- & Hf).
  apply Hfloat. now apply gdf_sample_In.
Qed.

Lemma bounds_float64 (gdf : list Feature) (amin amax : Q) :
  float64_areas gdf ->
  series_min (map area_km2 (snd (gdf_sample gdf))) = Some amin ->
  series_max (map area_km2 (snd (gdf_sample gdf))) = Some amax ->
  is_float64 amin /\ is_float64 amax.
Proof.
  intros Hfloat Hmin Hmax.
  apply series_min_spec in Hmin as [Hmin _].
  apply series_max_spec in Hmax as [Hmax _].
  split; now apply (sample_float64 gdf).
Qed.

(** The intensity of every encoded row is a colour level. *)
Lemma intensity_range (gdf : list Feature) (e : Encoded) :
  float64_areas gdf ->
  In e (layer_data (snd (create_choropleth_map gdf))) ->
  0 <= color_intensity e <= 255.
Proof.
  intros Hfloat He. destruct (layer_row gdf e He) as [Hf Ee].
  destruct (sample_bounds _ _ Hf) as (amin & amax & Hmin & Hmax & Hlo & Hhi).
  destruct (bounds_float64 gdf amin amax Hfloat Hmin Hmax) as [Fmin Fmax].
  assert (Fa : is_float64 (area_km2 (feature e)))
    by (apply (sample_float64 gdf); [exact Hfloat | now apply in_map]).
  rewrite Hmin, Hmax in Ee. rewrite Ee.
  pose proof (encode_row_normalise (Some amin) (Some amax) (feature e)) as E.
  destruct (Qlt_le_dec amin amax) as [Hlt | Hge].
  - destruct (normalise_spread amin amax _ Fmin Fmax Fa Hlt Hlo Hhi) as (En & Hi & _).
    rewrite En in E. injection E as -> _. exact Hi.
  - rewrite normalise_uniform in E by lra. injection E as -> _. lia.
Qed.

Lemma color_green_exact (x : Z) :
  0 <= x <= 255 ->
  astype_int (255 - inject_Z x * (1 # 2))%Q = 255 - (x + 1) / 2.
Proof.
  intros H. unfold astype_int, Qminus, Qplus, Qopp, Qmult, inject_Z.
  cbn [Qnum Qden Pos.mul].
  rewrite Z.quot_div_nonneg by lia.
  pose proof (Z.div_mod (x + 1) 2).
  pose proof (Z.mod_pos_bound (x + 1) 2).
  pose proof (Z.div_mod (255 * 2 + - (x * 1) * 1) 2).
  pose proof (Z.mod_pos_bound (255 * 2 + - (x * 1) * 1) 2).
  lia.
Qed.

Lemma color_green (x : Z) :
  0 <= x <= 255 ->
  astype_int (fsub 255 (fmul (inject_Z x) (1 # 2))) = 255 - (x + 1) / 2.
Proof.
  intros H. rewrite <- (color_green_exact x H).
  pose proof (half_exact _ laws x H) as E.
  apply astype_int_eq; [| exact E].
  rewrite E. unfold Qminus, Qplus, Qopp, Qmult, inject_Z, Qle.
  cbn [Qnum Qden Pos.mul]. lia.
Qed.

(** C1, with the cast the code makes: on a sample whose smallest area
    [amin] and largest area [amax] differ, every row gets the intensity
    [(area - amin) / (amax - amin) * 255] and the elevation
    [(area - amin) / (amax - amin) * 50000], both computed in float64 and
    cast with the fractional part discarded (not rounded), the elevation
    raised by 5000; the intensity is an integer of [0, 255], the areas
    being doubles. The sample is the subset itself up to 10000 rows, and
    every row of the sample is encoded. *)
Theorem C1_normalisation_truncates (gdf_filtered : list Feature) (amin amax : Q) :
  let kept := snd (gdf_sample gdf_filtered) in
  let deck := snd (create_choropleth_map gdf_filtered) in
  float64_areas gdf_filtered ->
  series_min (map area_km2 kept) = Some amin ->
  series_max (map area_km2 kept) = Some amax ->
  (amin < amax)%Q ->
  ((length gdf_filtered <= 10000)%nat -> kept = gdf_filtered) /\
  map feature (layer_data deck) = kept /\
  forall e, In e (layer_data deck) ->
    color_intensity e
    = astype_int (fmul (fdiv (fsub (area_km2 (feature e)) amin)
                             (fsub amax amin)) 255) /\
    0 <= color_intensity e <= 255 /\
    elevation e
    = astype_int (fmul (fdiv (fsub (area_km2 (feature e)) amin)
                             (fsub amax amin)) 50000) + 5000.
Proof.
  intros kept deck Hfloat Hmin Hmax Hlt. split; [| split].
  - intros Hlen. unfold kept. now rewrite gdf_sample_small.
  - apply create_choropleth_map_features.
  - intros e He. destruct (layer_row _ e He) as [Hf Ee].
    destruct (bounds_float64 _ amin amax Hfloat Hmin Hmax) as [Fmin Fmax].
    assert (Fa : is_float64 (area_km2 (feature e)))
      by (apply (sample_float64 gdf_filtered); [exact Hfloat | now apply in_map]).
    fold kept in Hf, Ee. rewrite Hmin, Hmax in Ee.
    pose proof (encode_row_normalise (Some amin) (Some amax) (feature e)) as E.
    rewrite <- Ee in E.
    assert (Hlo : (amin <= area_km2 (feature e))%Q).
    { apply series_min_spec in Hmin as [_ H]. rewrite Forall_forall in H.
      apply H. now apply in_map. }
    assert (Hhi : (area_km2 (feature e) <= amax)%Q).
    { apply series_max_spec in Hmax as [_ H]. rewrite Forall_forall in H.
      apply H. now apply in_map. }
    destruct (normalise_spread amin amax _ Fmin Fmax Fa Hlt Hlo Hhi)
      as (En & Hi & _).
    rewrite En in E. injection E as Ei Eh. rewrite Ei, Eh.
    repeat split; try reflexivity; apply Hi.
Qed.

(** C7, with the cast the code makes: the colour of an encoded row is
    [255, 255 - intensity * 0.5, 0, 200] with the green channel computed in
    float64 and its fractional part discarded (not rounded): green is [255]
    minus half the intensity rounded up, the areas being doubles. Red, blue
    and alpha are 255, 0 and 200. *)
Theorem C7_color_truncates (gdf_filtered : list Feature) (e : Encoded) :
  float64_areas gdf_filtered ->
  In e (layer_data (snd (create_choropleth_map gdf_filtered))) ->
  color e
  = [255;
     astype_int (fsub 255 (fmul (inject_Z (color_intensity e)) (1 # 2)));
     0; 200] /\
  color e = [255; 255 - (color_intensity e + 1) / 2; 0; 200] /\
  0 <= color_intensity e <= 255.
Proof.
  intros Hfloat He. pose proof (intensity_range _ e Hfloat He) as Hi.
  destruct (layer_row _ e He) as [_ Ee].
  assert (Ec : color e = color_of (color_intensity e)).
  { rewrite Ee at 1. rewrite encode_row_color. now rewrite <- Ee. }
  split; [exact Ec | split; [| exact Hi]].
  rewrite Ec. unfold color_of. now rewrite color_green.
Qed.

(** C8: on a non-empty subset whose rows all have the same area, every row
    gets intensity 128 and elevation 10000. *)
Theorem C8_uniform_fallback (gdf_filtered : list Feature) (a : Q) :
  gdf_filtered <> [] ->
  (forall f, In f gdf_filtered -> area_km2 f == a) ->
  let deck := snd (create_choropleth_map gdf_filtered) in
  layer_data deck <> [] /\
  forall e, In e (layer_data deck) ->
    color_intensity e = 128 /\ elevation e = 10000.
Proof.
  intros Hne Hall deck. split.
  - intros E. apply (gdf_sample_nonempty _ Hne).
    rewrite <- create_choropleth_map_features. fold deck. now rewrite E.
  - intros e He. destruct (layer_row _ e He) as [Hf Ee].
    destruct (sample_bounds _ _ Hf) as (amin & amax & Hmin & Hmax & _).
    rewrite Hmin, Hmax in Ee.
    pose proof (encode_row_normalise (Some amin) (Some amax) (feature e)) as E.
    rewrite <- Ee in E.
    assert (Hsame : forall x, In x (map area_km2 (snd (gdf_sample gdf_filtered))) -> x == a).
    { intros x Hx. apply in_map_iff in Hx. destruct Hx as (f & <- & Hx).
      apply Hall. now apply gdf_sample_In. }
    apply series_min_spec in Hmin as [Hmin _].
    apply series_max_spec in Hmax as [Hmax _].
    apply Hsame in Hmin, Hmax.
    rewrite normalise_uniform in E by (rewrite Hmin, Hmax; apply Qlt_irrefl).
    now injection E as -> ->.
Qed.

(** C10: the areas being doubles, every elevation lies in [5000, 55000]; when the smallest and the
    largest area of the sample differ, the rows of smallest area get exactly
    5000 and the rows of largest area exactly 55000; otherwise every row gets
    10000. *)
Theorem C10_elevation_range (gdf_filtered : list Feature) (e : Encoded) :
  float64_areas gdf_filtered ->
  In e (layer_data (snd (create_choropleth_map gdf_filtered))) ->
  let kept := snd (gdf_sample gdf_filtered) in
  5000 <= elevation e <= 55000 /\
  exists amin amax,
    series_min (map area_km2 kept) = Some amin /\
    series_max (map area_km2 kept) = Some amax /\
    ((amin < amax)%Q ->
       (area_km2 (feature e) == amin -> elevation e = 5000) /\
       (area_km2 (feature e) == amax -> elevation e = 55000)) /\
    (~ (amin < amax)%Q -> elevation e = 10000).
Proof.
  intros Hfloat He kept.
  destruct (layer_row _ e He) as [Hf Ee]. fold kept in Hf, Ee.
  destruct (sample_bounds _ _ Hf) as (amin & amax & Hmin & Hmax & Hlo & Hhi).
  destruct (bounds_float64 _ amin amax Hfloat Hmin Hmax) as [Fmin Fmax].
  assert (Fa : is_float64 (area_km2 (feature e)))
    by (apply (sample_float64 gdf_filtered); [exact Hfloat | now apply in_map]).
  pose proof (ratio_float64 amin amax _ Fmin Fmax Fa) as Fr.
  pose proof (factor_float64 50000 ltac:(lia)) as Fc.
  rewrite Hmin, Hmax in Ee.
  pose proof (encode_row_normalise (Some amin) (Some amax) (feature e)) as E.
  rewrite <- Ee in E.
  assert (Hspread : (amin < amax)%Q ->
            elevation e = elevation_of amin amax (area_km2 (feature e)) /\
            5000 <= elevation e <= 55000).
  { intros Hlt.
    destruct (normalise_spread amin amax _ Fmin Fmax Fa Hlt Hlo Hhi)
      as (En & _ & Hh).
    rewrite En in E. injection E as _ Eh. now rewrite Eh. }
  assert (Hflat : ~ (amin < amax)%Q -> elevation e = 10000).
  { intros Hn. rewrite normalise_uniform in E by exact Hn. now injection E. }
  split.
  - destruct (Qlt_le_dec amin amax) as [Hlt | Hge].
    + now apply Hspread.
    + rewrite Hflat by lra. lia.
  - exists amin, amax.
    split; [exact Hmin | split; [exact Hmax | split; [| exact Hflat]]].
    intros Hlt. destruct (Hspread Hlt) as [-> _]. unfold elevation_of.
    split; intros Ea.
    + pose proof (fmul_zero _ laws _ 50000 Fr Fc
                    (ratio_at_min _ _ _ Fmin Fmax Fa Hlt Ea)) as Er.
      rewrite (astype_int_eq _ 0%Q); [reflexivity | rewrite Er; lra | exact Er].
    + pose proof (fmul_one _ laws _ 50000 Fr Fc
                    (ratio_at_max _ _ _ Fmin Fmax Fa Hlt Ea)) as Er.
      rewrite (astype_int_eq _ 50000%Q); [reflexivity | rewrite Er; lra | exact Er].
Qed.

(** C2: a subset of more than 10000 rows is cut down to exactly 10000 rows
    and a warning carrying the original count is displayed. The rows kept are
    rows of the subset; [v], the area of the last row kept, is the 10000th
    largest area of the subset (fewer than 10000 rows lie above it, at least
    10000 reach it); every row kept reaches [v]; all the rows above [v] are
    kept; and of the rows at [v] the first ones in the order of the subset
    are kept. *)
Theorem C2_sampling_cap (gdf_filtered : list Feature) :
  (10000 < length gdf_filtered)%nat ->
  let result := create_choropleth_map gdf_filtered in
  let kept := map feature (layer_data (snd result)) in
  let above (v : Q) (f : Feature) := Qgtb (area_km2 f) v in
  let level (v : Q) (f : Feature) := Qeq_bool (area_km2 f) v in
  let reaches (v : Q) (f : Feature) := Qle_bool v (area_km2 f) in
  fst result = [WarningSample (length gdf_filtered)] /\
  length (layer_data (snd result)) = 10000%nat /\
  (forall f, In f kept -> In f gdf_filtered) /\
  exists v : Q,
    (length (filter (above v) gdf_filtered) < 10000
     <= length (filter (reaches v) gdf_filtered))%nat /\
    Forall (fun f => (v <= area_km2 f)%Q) kept /\
    Permutation (filter (above v) kept) (filter (above v) gdf_filtered) /\
    filter (level v) kept
    = firstn (10000 - length (filter (above v) gdf_filtered))
             (filter (level v) gdf_filtered).
Proof.
  fold max_polygons. intros Hlen. cbv zeta.
  rewrite create_choropleth_map_log, <- (length_map feature).
  rewrite create_choropleth_map_features, gdf_sample_large by exact Hlen.
  cbn [fst snd].
  assert (Hn : (0 < max_polygons <= length gdf_filtered)%nat)
    by (split; [exact max_polygons_pos | lia]).
  destruct gdf_filtered as [|d t] eqn:Egdf; [simpl in Hlen; lia |].
  rewrite <- Egdf in *. clear Egdf t.
  destruct (largest_spec area_km2 max_polygons gdf_filtered d Hn)
    as (H1 & H2 & _ & H4 & H5 & H6).
  split; [reflexivity | split; [exact H1 | split]].
  - intros f. apply nlargest_In.
  - exists (area_km2 (last (nlargest max_polygons gdf_filtered) d)).
    split; [exact H4 | split; [exact H2 | split; [exact H5 | exact H6]]].
Qed.

End EncoderFacts.

(** *** The encoder on the sample tables *)

(** C1 as stated (intensity and elevation rounded to the nearest integer)
    fails on the areas 1.0, 1.046875, 2.0: the middle row has ratio 3/64,
    hence 11.953125 and 2343.75 before the cast; the encoder gives it
    intensity 11 and elevation 7343, in binary64 as without rounding (every
    intermediate value is a double), and rounding gives 12 and 7344 under
    either reading of a tie. *)
Lemma C1_rounding_counterexample :
  encoded_levels (areas_1_67over64_2 binary64)
  = [(1%Q, 0, 5000); (67 # 64, 11, 7343); (2%Q, 255, 55000)] /\
  encoded_levels (areas_1_67over64_2 exact)
  = [(1%Q, 0, 5000); (67 # 64, 11, 7343); (2%Q, 255, 55000)] /\
  series_min (map area_km2 (areas_1_67over64_2 binary64)) = Some 1%Q /\
  series_max (map area_km2 (areas_1_67over64_2 binary64)) = Some 2%Q /\
  specified_intensity round_half_even 1 2 (67 # 64) = 12 /\
  specified_intensity round_half_up 1 2 (67 # 64) = 12 /\
  specified_elevation round_half_even 1 2 (67 # 64) = 7344 /\
  specified_elevation round_half_up 1 2 (67 # 64) = 7344.
Proof. repeat split; vm_compute; reflexivity. Qed.

(** Where the exact product is an integer, the last bit of the double
    decides the cast: on the areas 1.0, 24.0, 41.0 the ratio of the middle
    row is 23/40 and the product with 50000 is 28750; binary64 rounds the
    ratio down, gets 28749.999999999996 and casts it to 28749. *)
Example cast_at_an_integer :
  encoded_levels (areas_1_24_41 exact)
  = [(1%Q, 0, 5000); (24%Q, 146, 33750); (41%Q, 255, 55000)] /\
  encoded_levels (areas_1_24_41 binary64)
  = [(1%Q, 0, 5000); (24%Q, 146, 33749); (41%Q, 255, 55000)].
Proof. split; vm_compute; reflexivity. Qed.

(** C1 on the areas 1.0 and 5.0: intensity 0 and elevation 5000 for the
    first row, intensity 255 and elevation 55000 for the second, in binary64
    as without rounding. *)
Lemma C1_areas_1_5_witness :
  (forall e, In e (layer_data (snd (create_choropleth_map (areas_1_5 exact)))) ->
     color_intensity e
     = astype_int ((area_km2 (feature e) - 1) / (5 - 1) * 255)%Q /\
     0 <= color_intensity e <= 255 /\
     elevation e
     = astype_int ((area_km2 (feature e) - 1) / (5 - 1) * 50000)%Q + 5000) /\
  encoded_levels (areas_1_5 exact) = [(1%Q, 0, 5000); (5%Q, 255, 55000)] /\
  encoded_levels (areas_1_5 binary64) = [(1%Q, 0, 5000); (5%Q, 255, 55000)].
Proof.
  split; [| split; vm_compute; reflexivity].
  apply (@C1_normalisation_truncates (plane exact) exact_laws
           (areas_1_5 exact) 1%Q 5%Q);
    [exact (fun _ _ => I) | reflexivity | reflexivity | reflexivity].
Defined.

(** C7 as stated (green channel rounded to the nearest integer) fails on the
    areas 1.0, 1.015625, 2.0: the middle row has intensity 3, hence 253.5
    before the cast; the encoder gives green 253, in binary64 as without
    rounding, and rounding gives 254 under either reading of a tie. *)
Lemma C7_rounding_counterexample :
  encoded_colors (areas_1_65over64_2 binary64)
  = [(0, [255; 255; 0; 200]); (3, [255; 253; 0; 200]); (255, [255; 127; 0; 200])] /\
  encoded_colors (areas_1_65over64_2 exact)
  = [(0, [255; 255; 0; 200]); (3, [255; 253; 0; 200]); (255, [255; 127; 0; 200])] /\
  specified_color round_half_even 3 = [255; 254; 0; 200] /\
  specified_color round_half_up 3 = [255; 254; 0; 200].
Proof. repeat split; vm_compute; reflexivity. Qed.

(** C7 on the same table: every row has the truncated colour. *)
Lemma C7_color_witness :
  Forall (fun e => color e = [255; 255 - (color_intensity e + 1) / 2; 0; 200])
         (layer_data (snd (create_choropleth_map (areas_1_65over64_2 exact)))).
Proof.
  apply Forall_forall. intros e He.
  apply (@C7_color_truncates (plane exact) exact_laws
           (areas_1_65over64_2 exact) e (fun _ _ => I) He).
Defined.

(** Binary64 has the law the colour relies on: on each of the 256
    intensities, [255 - x * 0.5] is computed without rounding. *)
Lemma binary64_half_exact :
  forallb (fun x => Qeq_bool (@fsub binary64 255 (@fmul binary64 (inject_Z x) (1 # 2)))
                             (255 - inject_Z x * (1 # 2)))
          (map Z.of_nat (seq 0 256)) = true.
Proof. vm_compute. reflexivity. Qed.

(** The areas of the sample tables are doubles. *)
Example samples_are_doubles :
  @float64_areas (plane binary64) (areas_1_24_41 binary64) /\
  @float64_areas (plane binary64) (areas_1_67over64_2 binary64) /\
  @float64_areas (plane binary64) (areas_1_65over64_2 binary64).
Proof.
  repeat split; intros f [<- | [<- | [<- | []]]]; vm_compute; reflexivity.
Qed.

(** C8 on two polygons of area 7.0: intensity 128 and elevation 10000 for
    both. *)
Lemma C8_areas_7_witness :
  (forall e, In e (layer_data (snd (create_choropleth_map (areas_7_7 binary64)))) ->
     color_intensity e = 128 /\ elevation e = 10000) /\
  encoded_levels (areas_7_7 binary64) = [(7%Q, 128, 10000); (7%Q, 128, 10000)].
Proof.
  split.
  - apply (@C8_uniform_fallback (plane binary64) (areas_7_7 binary64) 7%Q).
    + discriminate.
    + intros f [<- | [<- | []]]; reflexivity.
  - vm_compute. reflexivity.
Defined.

(** C10 on the areas 1.0 and 5.0, and on two polygons of area 7.0. *)
Lemma C10_elevation_witness :
  Forall (fun e => 5000 <= elevation e <= 55000)
         (layer_data (snd (create_choropleth_map (areas_1_5 exact)))) /\
  map elevation (layer_data (snd (create_choropleth_map (areas_1_5 exact))))
  = [5000; 55000] /\
  map elevation (layer_data (snd (create_choropleth_map (areas_7_7 exact))))
  = [10000; 10000].
Proof.
  split; [| split; vm_compute; reflexivity].
  apply Forall_forall. intros e He.
  apply (@C10_elevation_range (plane exact) exact_laws (areas_1_5 exact) e
           (fun _ _ => I) He).
Defined.

(** C2 on 10,001 polygons: 10,000 rows are encoded and the warning carries
    the count 10,001. *)
Lemma C2_polygons_10001_witness :
  length (polygons_10001 binary64) = 10001%nat /\
  fst (create_choropleth_map (polygons_10001 binary64))
  = [WarningSample (length (polygons_10001 binary64))] /\
  length (layer_data (snd (create_choropleth_map (polygons_10001 binary64))))
  = 10000%nat.
Proof.
  assert (Hlen : length (polygons_10001 binary64) = 10001%nat).
  { unfold polygons_10001. now rewrite length_map, length_seq. }
  assert (H : (10000 < length (polygons_10001 binary64))%nat).
  { rewrite Hlen. apply Nat.lt_succ_diag_r. }
  destruct (@C2_sampling_cap (plane binary64) (polygons_10001 binary64) H)
    as (Hlog & Hrows & _).
  split; [exact Hlen | split; [exact Hlog | exact Hrows]].
Defined.

(** C9 as stated fails: given no row, the encoder displays nothing, raises
    nothing and returns a deck, with no row and an undefined centre. *)
Lemma C9_encoder_accepts_empty :
  @create_choropleth_map (plane binary64) []
  = ([], {| layer_data := []; latitude := None; longitude := None |}).
Proof. reflexivity. Qed.

(** ** Grouped sums *)

Section GroupByFacts.
Context {float64 : Float64} {K : Type}.
Variable compare : K -> K -> comparison.
Hypothesis laws : OrderLaws compare.

Let key_lt {V : Type} (a b : K * V) : Prop := compare (fst a) (fst b) = Lt.

Lemma compare_eq_sym (x y : K) : compare x y = Eq -> compare y x = Eq.
Proof.
  intros H. rewrite <- (compare_eq_l _ laws x y x H). apply (compare_refl _ laws).
Qed.

Lemma same_key_sym (k k' : K) (v : Q) :
  same_key compare k' (k, v) = same_key compare k (k', v).
Proof.
  unfold same_key. simpl.
  destruct (compare k' k) eqn:E1, (compare k k') eqn:E2; try reflexivity;
    try (apply compare_eq_sym in E1; congruence);
    try (apply compare_eq_sym in E2; congruence).
Qed.

(** Where the row of key [k] goes in a sorted table of groups: a group of
    the new table is an old group of another key, the old group of key [k]
    with [v] after its values, or a new group when no old group has key
    [k]. *)
Lemma add_to_group_inv (k : K) (v : Q) (acc : list (K * list Q)) :
  StronglySorted key_lt acc ->
  forall g, In g (add_to_group compare k v acc) ->
    (In g acc /\ compare k (fst g) <> Eq) \/
    (exists vs, In (fst g, vs) acc /\ compare k (fst g) = Eq /\ snd g = vs ++ [v]) \/
    (g = (k, [v]) /\ forall g', In g' acc -> compare k (fst g') <> Eq).
Proof.
  induction 1 as [|[k' vs] rest Hs IH Hk]; intros g; simpl.
  - intros [<- | []]. right; right. split; [reflexivity | intros ? []].
  - rewrite Forall_forall in Hk. unfold key_lt in Hk. simpl in Hk.
    destruct (compare k k') eqn:E.
    + (* the group of [k'] receives the row *)
      intros [<- | Hg].
      * right; left. exists vs. simpl. auto.
      * left. split; [now right |].
        rewrite (compare_eq_l _ laws k k' _ E), (Hk g Hg). discriminate.
    + (* a new group in front *)
      assert (Hall : forall g', (k', vs) = g' \/ In g' rest -> compare k (fst g') <> Eq).
      { intros g' [<- | Hg']; simpl; [congruence |].
        rewrite (compare_lt_trans _ laws k k' _ E (Hk g' Hg')). discriminate. }
      intros [<- | Hg].
      * right; right. split; [reflexivity | exact Hall].
      * left. split; [exact Hg | now apply Hall].
    + (* further down *)
      intros [<- | Hg].
      * left. split; [now left | simpl; congruence].
      * destruct (IH g Hg) as [[Hin Hne] | [(vs' & Hin & Heq & Hsum) | [-> Hnew]]].
        -- left. split; [now right | exact Hne].
        -- right; left. exists vs'. split; [now right | auto].
        -- right; right. split; [reflexivity |].
           intros g' [<- | Hg']; simpl; [congruence | now apply Hnew].
Qed.

Lemma add_to_group_keeps (k : K) (v : Q) (acc : list (K * list Q)) (g : K * list Q) :
  In g acc -> exists g', In g' (add_to_group compare k v acc) /\ fst g' = fst g.
Proof.
  induction acc as [|[k' vs] rest IH]; [intros [] |].
  simpl. destruct (compare k k') eqn:E.
  - intros [<- | Hg]; [exists (k', vs ++ [v]) | exists g]; simpl; auto.
  - intros Hg. exists g. split; [now right | reflexivity].
  - intros [<- | Hg].
    + exists (k', vs). simpl; auto.
    + destruct (IH Hg) as (g' & Hg' & Ek). exists g'. simpl; auto.
Qed.

Lemma add_to_group_has (k : K) (v : Q) (acc : list (K * list Q)) :
  exists g, In g (add_to_group compare k v acc) /\ compare k (fst g) = Eq.
Proof.
  induction acc as [|[k' vs] rest IH]; simpl.
  - exists (k, [v]). split; [now left | apply (compare_refl _ laws)].
  - destruct (compare k k') eqn:E.
    + exists (k', vs ++ [v]). simpl; auto.
    + exists (k, [v]). split; [now left | apply (compare_refl _ laws)].
    + destruct IH as (g & Hg & Eg). exists g. simpl; auto.
Qed.

Lemma add_to_group_sorted (k : K) (v : Q) (acc : list (K * list Q)) :
  StronglySorted key_lt acc ->
  StronglySorted key_lt (add_to_group compare k v acc).
Proof.
  induction 1 as [|[k' vs] rest Hs IH Hk]; simpl; [repeat constructor |].
  destruct (compare k k') eqn:E.
  - constructor; [exact Hs | exact Hk].
  - constructor; [now constructor |].
    constructor; [exact E |].
    rewrite Forall_forall in *. intros g Hg. unfold key_lt in *. simpl in *.
    now apply (compare_lt_trans _ laws k k' _ E), Hk.
  - constructor; [exact IH |].
    rewrite Forall_forall in *. intros g Hg. unfold key_lt in *. simpl in *.
    destruct (add_to_group_inv k v rest Hs g Hg)
      as [[Hin _] | [(vs' & Hin & _) | [-> _]]].
    + now apply Hk.
    + exact (Hk _ Hin).
    + simpl. now apply (compare_gt_lt _ laws).
Qed.

Lemma groupby_snoc (rows : list (K * Q)) (r : K * Q) :
  groupby compare (rows ++ [r])
  = add_to_group compare (fst r) (snd r) (groupby compare rows).
Proof. unfold groupby. now rewrite fold_left_app. Qed.

(** The rows of a key, after one more row. *)
Lemma same_key_snoc (k k' : K) (v : Q) (rows : list (K * Q)) :
  map snd (filter (same_key compare k') (rows ++ [(k, v)]))
  = if same_key compare k' (k, v)
    then map snd (filter (same_key compare k') rows) ++ [v]
    else map snd (filter (same_key compare k') rows).
Proof.
  rewrite filter_app. simpl.
  destruct (same_key compare k' (k, v)).
  - now rewrite map_app.
  - now rewrite app_nil_r.
Qed.

(** The groups: keys strictly ascending; every group carries the key of one
    of its rows and the values of the rows of that key, in row order; every
    row has its group. *)
Lemma groupby_spec (rows : list (K * Q)) :
  StronglySorted key_lt (groupby compare rows) /\
  (forall k vs, In (k, vs) (groupby compare rows) ->
     vs = map snd (filter (same_key compare k) rows) /\ exists v, In (k, v) rows) /\
  (forall r, In r rows ->
     exists g, In g (groupby compare rows) /\ compare (fst r) (fst g) = Eq).
Proof.
  induction rows as [|[k v] rows (Hs & Hvals & Hall)] using rev_ind.
  - split; [constructor | split; [intros ? ? [] | intros ? []]].
  - rewrite groupby_snoc. cbn [fst snd]. split; [| split].
    + now apply add_to_group_sorted.
    + intros k' vs' Hg. rewrite same_key_snoc, same_key_sym.
      destruct (add_to_group_inv k v _ Hs _ Hg)
        as [[Hin Hne] | [(vs & Hin & Heq & Es) | [[= -> ->] Hnew]]];
        cbn [fst snd] in *.
      * destruct (Hvals _ _ Hin) as [-> (w & Hw)].
        unfold same_key; cbn [fst]. split.
        -- destruct (compare k k'); congruence.
        -- exists w. apply in_or_app. now left.
      * destruct (Hvals _ _ Hin) as [-> (w & Hw)].
        unfold same_key; cbn [fst]. rewrite Heq. split; [exact Es |].
        exists w. apply in_or_app. now left.
      * unfold same_key; cbn [fst]. rewrite (compare_refl _ laws). split.
        -- rewrite (filter_none (same_key compare k)); [reflexivity |].
           rewrite Forall_forall. intros r Hr.
           destruct (Hall r Hr) as (g & Hg' & Eg).
           unfold same_key. destruct (compare k (fst r)) eqn:Ekr; try reflexivity.
           exfalso. apply (Hnew g Hg').
           now rewrite (compare_eq_l _ laws k (fst r) _ Ekr).
        -- exists v. apply in_or_app. right. now left.
    + intros r Hr. apply in_app_or in Hr. destruct Hr as [Hr | [<- | []]].
      * destruct (Hall r Hr) as (g & Hg & Eg).
        destruct (add_to_group_keeps k v _ g Hg) as (g' & Hg' & Ek).
        exists g'. split; [exact Hg' | now rewrite Ek].
      * apply add_to_group_has.
Qed.

Lemma StronglySorted_map {A B : Type} (R : B -> B -> Prop) (f : A -> B) (l : list A) :
  StronglySorted (fun a b => R (f a) (f b)) l -> StronglySorted R (map f l).
Proof.
  induction 1 as [|a l Hs IH Ha]; simpl; constructor; [exact IH |].
  rewrite Forall_forall in *. intros b Hb.
  apply in_map_iff in Hb. destruct Hb as (x & <- & Hx). now apply Ha.
Qed.

(** The table of groups: keys strictly ascending; every group carries the
    key of one of its rows and the sum of its rows; every row has its
    group. *)
Theorem groupby_sum_spec (rows : list (K * Q)) :
  StronglySorted key_lt (groupby_sum compare rows) /\
  (forall k s, In (k, s) (groupby_sum compare rows) ->
     s = group_sum compare k rows /\ exists v, In (k, v) rows) /\
  (forall r, In r rows ->
     exists e, In e (groupby_sum compare rows) /\ compare (fst r) (fst e) = Eq).
Proof.
  destruct (groupby_spec rows) as (Hs & Hvals & Hall).
  unfold groupby_sum. split; [| split].
  - apply StronglySorted_map. exact Hs.
  - intros k s Hin. apply in_map_iff in Hin.
    destruct Hin as ([k' vs] & [= -> <-] & Hg).
    destruct (Hvals _ _ Hg) as [-> Hrow]. split; [reflexivity | exact Hrow].
  - intros r Hr. destruct (Hall r Hr) as (g & Hg & Eg).
    exists (fst g, series_sum (snd g)). split; [| exact Eg].
    apply in_map_iff. exists g. split; [reflexivity | exact Hg].
Qed.

End GroupByFacts.

(** ** The orders of the keys *)

Lemma Z_compare_laws : OrderLaws Z.compare.
Proof.
  split.
  - apply Z.compare_refl.
  - intros x y. rewrite Z.compare_gt_iff, Z.compare_lt_iff. lia.
  - intros x y z. rewrite !Z.compare_lt_iff. lia.
  - intros x y z H. apply Z.compare_eq in H. now subst.
Qed.

Lemma Q_compare_laws : OrderLaws Qcompare.
Proof.
  split.
  - intros x. apply Qeq_alt. reflexivity.
  - intros x y. rewrite <- Qgt_alt, <- Qlt_alt. lra.
  - intros x y z. rewrite <- !Qlt_alt. lra.
  - intros x y z H. apply Qeq_alt in H. now rewrite H.
Qed.

Lemma ascii_compare_refl (a : ascii) : Ascii.compare a a = Eq.
Proof. unfold Ascii.compare. apply N.compare_refl. Qed.

Lemma ascii_compare_lt_trans (a b c : ascii) :
  Ascii.compare a b = Lt -> Ascii.compare b c = Lt -> Ascii.compare a c = Lt.
Proof. unfold Ascii.compare. rewrite !N.compare_lt_iff. apply N.lt_trans. Qed.

Lemma string_compare_refl (s : string) : String.compare s s = Eq.
Proof.
  induction s as [|a s IH]; simpl; [reflexivity |].
  now rewrite ascii_compare_refl.
Qed.

Lemma string_compare_lt_trans (s1 s2 s3 : string) :
  String.compare s1 s2 = Lt -> String.compare s2 s3 = Lt ->
  String.compare s1 s3 = Lt.
Proof.
  revert s2 s3. induction s1 as [|a s1 IH]; intros [|b s2] [|c s3]; simpl;
    try congruence.
  destruct (Ascii.compare a b) eqn:Eab; try discriminate;
    destruct (Ascii.compare b c) eqn:Ebc; try discriminate; intros H1 H2.
  - apply Ascii.compare_eq_iff in Eab, Ebc. subst.
    rewrite ascii_compare_refl. now apply IH with s2.
  - apply Ascii.compare_eq_iff in Eab. subst. now rewrite Ebc.
  - apply Ascii.compare_eq_iff in Ebc. subst. now rewrite Eab.
  - now rewrite (ascii_compare_lt_trans a b c).
Qed.

Lemma string_compare_laws : OrderLaws String.compare.
Proof.
  split.
  - apply string_compare_refl.
  - intros x y H. rewrite String.compare_antisym, H. reflexivity.
  - apply string_compare_lt_trans.
  - intros x y z H. apply String.compare_eq_iff in H. now subst.
Qed.

Lemma cell_compare_laws : OrderLaws cell_compare.
Proof.
  split.
  - intros [q | s |]; simpl;
      [apply (compare_refl _ Q_compare_laws)
      | apply (compare_refl _ string_compare_laws) | reflexivity].
  - intros [p | s |] [q | t |]; simpl; try congruence.
    + apply (compare_gt_lt _ Q_compare_laws).
    + apply (compare_gt_lt _ string_compare_laws).
  - intros [p | s |] [q | t |] [r | u |]; simpl; try congruence.
    + apply (compare_lt_trans _ Q_compare_laws).
    + apply (compare_lt_trans _ string_compare_laws).
  - intros [p | s |] [q | t |] [r | u |]; simpl; try congruence.
    + apply (compare_eq_l _ Q_compare_laws).
    + apply (compare_eq_l _ string_compare_laws).
Qed.

Lemma ano_uf_compare_laws : OrderLaws ano_uf_compare.
Proof.
  unfold ano_uf_compare. split.
  - intros [y c]. simpl. rewrite Z.compare_refl.
    apply (compare_refl _ cell_compare_laws).
  - intros [y c] [y' c']. simpl. rewrite (Z.compare_antisym y y').
    destruct (y ?= y') eqn:E; simpl; try congruence.
    apply (compare_gt_lt _ cell_compare_laws).
  - intros [y c] [y' c'] [y'' c'']. simpl.
    destruct (y ?= y') eqn:E1; try discriminate;
      destruct (y' ?= y'') eqn:E2; try discriminate; intros H1 H2.
    + apply Z.compare_eq in E1, E2. subst. rewrite Z.compare_refl.
      now apply (compare_lt_trans _ cell_compare_laws) with c'.
    + apply Z.compare_eq in E1. subst. now rewrite E2.
    + apply Z.compare_eq in E2. subst. now rewrite E1.
    + now rewrite (compare_lt_trans _ Z_compare_laws _ _ _ E1 E2).
  - intros [y c] [y' c'] [y'' c'']. simpl.
    destruct (y ?= y') eqn:E; try discriminate. intros H.
    apply Z.compare_eq in E. subst.
    destruct (y' ?= y''); try reflexivity.
    now apply (compare_eq_l _ cell_compare_laws).
Qed.

(** ** The schema normaliser *)

Section LoaderFacts.
Context {backend : Backend}.

Lemma traverse_Forall2 {A B : Type} (f : A -> option B) (l : list A) (l' : list B) :
  traverse f l = Some l' -> Forall2 (fun x y => f x = Some y) l l'.
Proof.
  revert l'. induction l as [|x t IH]; simpl; intros l'.
  - intros [= <-]. constructor.
  - destruct (f x) eqn:Ex; [| discriminate].
    destruct (traverse f t); [| discriminate].
    intros [= <-]. constructor; [exact Ex | now apply IH].
Qed.

(** The rows that survive both coercions are the valid rows, in order, each
    with its year cast to an integer and its area. *)
Lemma coerce_spec (p_ano p_area : nat) (rs : list RawRow) :
  Forall2 (fun (row : RawRow * Z * Q) (r : RawRow) =>
             fst (fst row) = r /\
             (exists y, to_numeric (cell_at p_ano r) = Some y /\
                        snd (fst row) = astype_int64 y) /\
             to_numeric (cell_at p_area r) = Some (snd row) /\
             (0 < snd row)%Q)
          (coerce_area_km2 p_area (coerce_ano p_ano rs))
          (filter (valid_row p_ano p_area) rs).
Proof.
  induction rs as [|r t IH]; simpl; [constructor |].
  unfold valid_row.
  destruct (to_numeric (cell_at p_ano r)) as [y |] eqn:Ey; simpl; [| exact IH].
  destruct (to_numeric (cell_at p_area r)) as [a |] eqn:Ea; simpl; [| exact IH].
  destruct (Qgtb a 0) eqn:Epos; simpl; [| exact IH].
  constructor; [| exact IH]. simpl.
  repeat split; eauto. now apply Qgtb_lt.
Qed.

Lemma make_feature_spec (labels : list string) (p_mun : nat) (c : option CRS)
  (row : RawRow * Z * Q) (f : Feature) :
  make_feature labels p_mun c row = Some f ->
  index f = raw_index (fst (fst row)) /\
  ano f = snd (fst row) /\
  area_km2 f = snd row.
Proof.
  destruct row as [[r y] a]. unfold make_feature.
  destruct (reproject c (raw_geometry r)); [| discriminate].
  intros [= <-]. simpl. auto.
Qed.

(** What a successful load went through. *)
Lemma load_data_some (raw : DataFrame) (log : list Output) (gdf : GeoDataFrame) :
  load_data raw = (log, Some gdf) ->
  let labels := rename_columns (columns raw) in
  log = [] /\
  label_in "ano" labels = true /\
  label_in "area_km2" labels = true /\
  gdf_columns gdf
  = (if label_in "municipio" labels then labels else labels ++ ["municipio"%string]) /\
  exists p_ano p_area p_mun,
    column_pos "ano" labels = Some p_ano /\
    column_pos "area_km2" labels = Some p_area /\
    municipio_source labels = Some p_mun /\
    traverse (make_feature labels p_mun (crs raw))
             (coerce_area_km2 p_area (coerce_ano p_ano (rows raw)))
    = Some (features gdf).
Proof.
  unfold load_data, load_data_try. cbv zeta.
  destruct (label_in "ano" _) eqn:Hano; [| discriminate].
  destruct (column_pos "ano" _) as [p_ano |] eqn:Epa; [| discriminate].
  destruct (label_in "area_km2" _) eqn:Harea; [| discriminate].
  destruct (column_pos "area_km2" _) as [p_area |] eqn:Epr; [| discriminate].
  destruct (municipio_source _) as [p_mun |] eqn:Epm; [| discriminate].
  destruct (traverse _ _) as [fs |] eqn:Efs; [| discriminate].
  unfold ret. intros [= <- <-]. simpl.
  repeat split; try reflexivity. exists p_ano, p_area, p_mun. auto.
Qed.

(** C5: in every table the loader returns, every row has a positive area and
    an integer year, the year and the area being the numbers its raw row's
    cells coerce to: the year is an int64, the number with its fractional
    part discarded when that is an int64 and the smallest int64 otherwise.
    The rows returned are, in order, the raw rows whose year and area both
    coerce and whose area is positive, so a raw row whose year or area fails
    coercion is not in the table. *)
Theorem C5_loaded_rows_are_valid (raw : DataFrame) (log : list Output)
  (gdf : GeoDataFrame) :
  load_data raw = (log, Some gdf) ->
  let labels := rename_columns (columns raw) in
  Forall (fun f => (0 < area_km2 f)%Q) (features gdf) /\
  exists p_ano p_area,
    column_pos "ano" labels = Some p_ano /\
    column_pos "area_km2" labels = Some p_area /\
    Forall2 (fun (f : Feature) (r : RawRow) =>
               index f = raw_index r /\
               (exists y, to_numeric (cell_at p_ano r) = Some y /\
                          ano f = astype_int64 y /\
                          (int64_min <= astype_int y <= int64_max ->
                           ano f = astype_int y)) /\
               int64_min <= ano f <= int64_max /\
               to_numeric (cell_at p_area r) = Some (area_km2 f) /\
               (0 < area_km2 f)%Q)
            (features gdf)
            (filter (valid_row p_ano p_area) (rows raw)).
Proof.
  intros Hload labels.
  destruct (load_data_some raw log gdf Hload)
    as (_ & _ & _ & _ & p_ano & p_area & p_mun & Ha & Hr & _ & Hfs).
  fold labels in Ha, Hr, Hfs.
  apply traverse_Forall2 in Hfs.
  pose proof (coerce_spec p_ano p_area (rows raw)) as Hrows.
  assert (H : Forall2 (fun (f : Feature) (r : RawRow) =>
               index f = raw_index r /\
               (exists y, to_numeric (cell_at p_ano r) = Some y /\
                          ano f = astype_int64 y /\
                          (int64_min <= astype_int y <= int64_max ->
                           ano f = astype_int y)) /\
               int64_min <= ano f <= int64_max /\
               to_numeric (cell_at p_area r) = Some (area_km2 f) /\
               (0 < area_km2 f)%Q)
            (features gdf)
            (filter (valid_row p_ano p_area) (rows raw))).
  { revert Hrows. generalize (filter (valid_row p_ano p_area) (rows raw)).
    induction Hfs as [| row f rows' fs Hmk _ IH]; intros rs Hrows;
      inversion Hrows as [| ? r ? rs' (Er & (y & Ey & Ez) & Ea & Hpos) Hrest];
      subst; constructor.
    - destruct (make_feature_spec _ _ _ _ _ Hmk) as (Hi & Hy & Hq).
      rewrite Hi, Hy, Hq, Ez.
      split; [reflexivity | split; [| split; [| split; [exact Ea | exact Hpos]]]].
      + exists y. split; [exact Ey | split; [reflexivity |]].
        apply astype_int64_in_range.
      + apply astype_int64_range.
    - now apply IH. }
  split.
  - clear -H.
    induction H as [| f r fs rs (_ & _ & _ & _ & Hpos) _ IH]; constructor; auto.
  - exists p_ano, p_area. auto.
Qed.


End LoaderFacts.

(** ** The page *)

Section PageFacts.
Context {backend : Backend}.

Lemma StronglySorted_impl {A : Type} (R R' : A -> A -> Prop) (l : list A) :
  (forall a b, R a b -> R' a b) -> StronglySorted R l -> StronglySorted R' l.
Proof.
  intros HR. induction 1 as [|a t Ht IH Ha]; constructor; [exact IH |].
  eapply Forall_impl; [| exact Ha]. intros b. apply HR.
Qed.

Lemma filter_map_comm {A B : Type} (g : A -> B) (P : B -> bool) (l : list A) :
  filter P (map g l) = map g (filter (fun a => P (g a)) l).
Proof.
  induction l as [|a t IH]; simpl; [reflexivity |].
  destruct (P (g a)); simpl; now rewrite IH.
Qed.

Lemma label_in_app (label : string) (l1 l2 : list string) :
  label_in label l1 = true -> label_in label (l1 ++ l2) = true.
Proof.
  unfold label_in. rewrite existsb_app. intros ->. reflexivity.
Qed.

Lemma loaded_has_ano (raw : DataFrame) (log : list Output) (gdf : GeoDataFrame) :
  load_data raw = (log, Some gdf) ->
  log = [] /\ label_in "ano" (gdf_columns gdf) = true.
Proof.
  intros H. destruct (load_data_some raw log gdf H) as (Hlog & Hano & _ & Hcols & _).
  split; [exact Hlog |]. rewrite Hcols.
  destruct (label_in "municipio" _); [exact Hano | now apply label_in_app].
Qed.

(** What [main] displays once the table is loaded. *)
Lemma main_loaded (raw : DataFrame) (ano_selecionado : Z)
  (estados_selecionados : list cell) (log : list Output) (gdf : GeoDataFrame) :
  load_data raw = (log, Some gdf) ->
  fst (main raw ano_selecionado estados_selecionados)
  = match features gdf with
    | [] => [ErrorNoData]
    | _ =>
        if label_in "uf" (gdf_columns gdf) && sidebar_raises gdf
        then [Uncaught]
        else
          match apply_filters gdf ano_selecionado estados_selecionados with
          | [] => [WarningNoMatch]
          | gdf_filtered =>
              fst (gdf_sample gdf_filtered)
              ++ [PydeckChart (snd (create_choropleth_map gdf_filtered));
                  LineChart (evolucao_temporal (features gdf))]
              ++ (if label_in "uf" (gdf_columns gdf)
                  then [BarChart (evolucao_por_estado
                                    (gdf_para_evolucao gdf estados_selecionados))]
                  else [])
          end
    end.
Proof.
  intros Hload. destruct (loaded_has_ano raw log gdf Hload) as [-> Hano].
  unfold main, bind. rewrite Hload, Hano. simpl.
  destruct (features gdf) as [|f0 fs]; [reflexivity |].
  destruct (label_in "uf" (gdf_columns gdf) && sidebar_raises gdf); [reflexivity |].
  destruct (apply_filters gdf ano_selecionado estados_selecionados) as [|f fl];
    [reflexivity |].
  rewrite <- create_choropleth_map_log.
  destruct (create_choropleth_map (f :: fl)) as [log' deck]. simpl.
  destruct (label_in "uf" (gdf_columns gdf)); reflexivity.
Qed.

Lemma gdf_sample_log_cases (gdf : list Feature) :
  fst (gdf_sample gdf) = [] \/ fst (gdf_sample gdf) = [WarningSample (length gdf)].
Proof.
  unfold gdf_sample. destruct (max_polygons <? length gdf)%nat; simpl; auto.
Qed.

(** The historical series: keys strictly ascending, one per year of the
    table, each with the sum of the areas of the rows of that year. *)
Lemma evolucao_temporal_spec (gdf : list Feature) :
  let tbl := evolucao_temporal gdf in
  StronglySorted (fun a b => fst a < fst b) tbl /\
  (forall y s, In (y, s) tbl ->
     s = series_sum (map area_km2 (filter (fun f => ano f =? y) gdf)) /\
     exists f, In f gdf /\ ano f = y) /\
  (forall f, In f gdf -> exists s, In (ano f, s) tbl).
Proof.
  unfold evolucao_temporal. cbv zeta.
  set (rows := map (fun f => (ano f, area_km2 f)) gdf).
  set (before := fun x y : Z * Q => fst x <? fst y).
  destruct (groupby_sum_spec Z.compare Z_compare_laws rows) as (Hs & Hsum & Hall).
  assert (Hperm := stable_sort_perm before (groupby_sum Z.compare rows)).
  split; [| split].
  - eapply StronglySorted_impl;
      [| apply (stable_sort_refined before) with (S := fun a b => (fst a ?= fst b) = Lt)].
    + unfold refined, before. intros a b [H | (_ & _ & H)].
      * now apply Z.ltb_lt.
      * now apply Z.compare_lt_iff.
    + unfold before. intros x y z Hxz. apply Z.ltb_lt in Hxz.
      destruct (fst x <? fst y) eqn:E; [now left | right].
      apply Z.ltb_ge in E. apply Z.ltb_lt. lia.
    + exact Hs.
  - intros y s Hin. apply (Permutation_in _ Hperm) in Hin.
    destruct (Hsum y s Hin) as [-> (v & Hv)]. split.
    + unfold group_sum, rows. rewrite filter_map_comm, map_map. simpl.
      f_equal. f_equal. apply filter_ext. intros f. unfold same_key. simpl.
      destruct (Z.eqb_spec (ano f) y) as [-> | Hne].
      * now rewrite Z.compare_refl.
      * destruct (Z.compare_spec y (ano f)); congruence.
    + unfold rows in Hv. apply in_map_iff in Hv.
      destruct Hv as (f & [= Ey _] & Hf). eauto.
  - intros f Hf.
    destruct (Hall (ano f, area_km2 f)) as ([k s] & He & Ek).
    + unfold rows. now apply (in_map (fun f => (ano f, area_km2 f))).
    + simpl in Ek. apply Z.compare_eq in Ek. subst k.
      exists s. now apply (Permutation_in _ (Permutation_sym Hperm)).
Qed.





(** C9, with the guard where the code has it: the encoder is never run on an empty subset. When the
    selection leaves no row, [main] displays the warning and stops, and no
    map is rendered; every map that is rendered has at least one row and is
    the encoding of the selected rows. *)
Theorem C9_no_map_for_empty_subset (raw : DataFrame) (ano_selecionado : Z)
  (estados_selecionados : list cell) (log : list Output) (gdf : GeoDataFrame) :
  load_data raw = (log, Some gdf) ->
  let shown := fst (main raw ano_selecionado estados_selecionados) in
  let gdf_filtered := apply_filters gdf ano_selecionado estados_selecionados in
  (gdf_filtered = [] ->
   (forall deck, ~ In (PydeckChart deck) shown) /\
   (features gdf <> [] ->
    label_in "uf" (gdf_columns gdf) && sidebar_raises gdf = false ->
    shown = [WarningNoMatch])) /\
  (forall deck, In (PydeckChart deck) shown ->
     gdf_filtered <> [] /\
     deck = snd (create_choropleth_map gdf_filtered) /\
     layer_data deck <> []).
Proof.
  intros Hload shown gdf_filtered.
  assert (Hshown := main_loaded raw ano_selecionado estados_selecionados log gdf Hload).
  fold shown gdf_filtered in Hshown.
  assert (Hdeck : forall deck, In (PydeckChart deck) shown ->
            gdf_filtered <> [] /\ deck = snd (create_choropleth_map gdf_filtered)).
  { intros deck. rewrite Hshown.
    destruct (features gdf) as [|f0 fs]; [intros [H | []]; discriminate |].
    destruct (label_in "uf" (gdf_columns gdf) && sidebar_raises gdf);
      [intros [H | []]; discriminate |].
    destruct gdf_filtered as [|f fl]; [intros [H | []]; discriminate |].
    intros H. split; [discriminate |].
    apply in_app_or in H. destruct H as [H | H].
    - destruct (gdf_sample_log_cases (f :: fl)) as [E | E]; rewrite E in H;
        [destruct H | destruct H as [H | []]; discriminate].
    - apply in_app_or in H. destruct H as [[H | [H | []]] | H]; try discriminate.
      + congruence.
      + destruct (label_in "uf" (gdf_columns gdf)); [| destruct H].
        destruct H as [H | []]; discriminate. }
  split.
  - intros Hempty. split.
    + intros deck H. now destruct (Hdeck deck H).
    + intros Hne Hok. rewrite Hshown, Hok, Hempty.
      destruct (features gdf); [congruence | reflexivity].
  - intros deck H. destruct (Hdeck deck H) as [Hne ->].
    repeat split; try assumption.
    intros E. apply (gdf_sample_nonempty _ Hne).
    rewrite <- create_choropleth_map_features. now rewrite E.
Qed.

End PageFacts.

(** *** The loader and the page on the sample tables *)


(** C5 on [raw_prodes]: of its eight rows the loader keeps the rows 0, 1 and
    7, with the years 2020, 2020 and 2021. *)
Lemma C5_raw_prodes_witness :
  load_data (raw_prodes binary64) = ([], Some (gdf_prodes binary64)) /\
  Forall (fun f => (0 < area_km2 f)%Q) (features (gdf_prodes binary64)) /\
  map (fun f => (index f, ano f, area_km2 f)) (features (gdf_prodes binary64))
  = [(0%nat, 2020, 10%Q); (1%nat, 2020, 5%Q); (7%nat, 2021, 3%Q)].
Proof.
  split; [reflexivity | split; [| reflexivity]].
  exact (proj1 (@C5_loaded_rows_are_valid (plane binary64) (raw_prodes binary64) [] (gdf_prodes binary64) eq_refl)).
Defined.


(** C6 on rows whose sums tie. *)
Example C6_ties_by_state :
  evolucao_por_estado (polygons_with_ties binary64)
  = [ ((2020, CStr "AC"), 15%Q); ((2020, CStr "MT"), 15%Q);
      ((2020, CStr "PA"), 15%Q); ((2020, CStr "AM"), 5%Q);
      ((2021, CStr "MT"), 3%Q) ].
Proof. vm_compute. reflexivity. Qed.



(** C5 on years that are no int64: 1e19 and -1e19 are loaded as the smallest
    int64, and the largest double below 2^63 as itself. *)
Example years_beyond_int64 :
  option_map (fun gdf => map ano (features gdf))
             (snd (load_data (raw_huge_year binary64)))
  = Some [-9223372036854775808; -9223372036854775808; 9223372036854774784].
Proof. reflexivity. Qed.

(** C9 on [raw_three] with the year 2021 and the state MT selected: no row is
    left, the warning is displayed and no map is rendered. *)
Lemma C9_empty_selection_witness :
  apply_filters (gdf_three binary64) 2021 [CStr "MT"] = [] /\
  fst (main (raw_three binary64) 2021 [CStr "MT"]) = [WarningNoMatch] /\
  forall deck, ~ In (PydeckChart deck) (fst (main (raw_three binary64) 2021 [CStr "MT"])).
Proof.
  destruct (@C9_no_map_for_empty_subset (plane binary64) (raw_three binary64) 2021 [CStr "MT"] []
              (gdf_three binary64) eq_refl) as (Hempty & _).
  destruct (Hempty eq_refl) as (Hnone & Hwarn).
  split; [reflexivity | split; [| exact Hnone]].
  apply Hwarn; [discriminate | reflexivity].
Defined.

(** * Further properties *)

(** ** The encoder: rows, warning and scale *)

Section EncoderRows.
Context {backend : Backend}.

(** The encoder shows [min (n, 10000)] of the [n] rows it is given; it
    displays the sampling warning when [n] exceeds 10000 and nothing
    otherwise; up to 10000 rows (10000 included) the rows are encoded as
    they come, in their order. *)
Theorem encoder_rows_and_warning (gdf_filtered : list Feature) :
  let result := create_choropleth_map gdf_filtered in
  length (layer_data (snd result)) = Nat.min (length gdf_filtered) max_polygons /\
  fst result
  = (if (max_polygons <? length gdf_filtered)%nat
     then [WarningSample (length gdf_filtered)] else []) /\
  ((length gdf_filtered <= max_polygons)%nat ->
   map feature (layer_data (snd result)) = gdf_filtered).
Proof.
  cbv zeta.
  rewrite create_choropleth_map_log, <- (length_map feature).
  rewrite create_choropleth_map_features.
  destruct (Nat.ltb_spec max_polygons (length gdf_filtered)) as [Hgt | Hle].
  - rewrite gdf_sample_large by exact Hgt. cbn [fst snd].
    rewrite nlargest_length by lia.
    split; [symmetry; apply Nat.min_r; lia | split; [reflexivity | lia]].
  - rewrite gdf_sample_small by exact Hle. cbn [fst snd].
    split; [symmetry; apply Nat.min_l; exact Hle | split; reflexivity].
Qed.

(** Sampling keeps the top of the scale: the largest area of the sample,
    which the normalisation divides by, is an area of the table given and no
    row of that table, kept or not, has a larger one. *)
Theorem sample_keeps_largest_area (gdf_filtered : list Feature) (f : Feature) :
  In f gdf_filtered ->
  exists area_max,
    series_max (map area_km2 (snd (gdf_sample gdf_filtered))) = Some area_max /\
    (area_km2 f <= area_max)%Q /\
    exists f', In f' gdf_filtered /\ area_km2 f' = area_max.
Proof.
  intros Hf.
  assert (Hne : gdf_filtered <> []) by (intros E; rewrite E in Hf; destruct Hf).
  pose proof (gdf_sample_nonempty _ Hne) as Hkept.
  assert (Hne' : map area_km2 (snd (gdf_sample gdf_filtered)) <> []).
  { intros E. apply map_eq_nil in E. contradiction. }
  destruct (series_max_nonempty _ Hne') as [area_max Hmax].
  exists area_max. split; [exact Hmax |].
  destruct (series_max_spec _ _ Hmax) as [Hin Hall].
  rewrite Forall_forall in Hall.
  apply in_map_iff in Hin. destruct Hin as (f' & Ef' & Hf').
  split; [| exists f'; split; [now apply gdf_sample_In | exact Ef']].
  destruct (Nat.le_gt_cases (length gdf_filtered) max_polygons) as [Hle | Hgt].
  - rewrite gdf_sample_small in Hall by exact Hle.
    apply Hall. now apply in_map.
  - rewrite gdf_sample_large in Hall, Hkept by exact Hgt. cbn [snd] in Hall, Hkept.
    assert (Hn : (0 < max_polygons <= length gdf_filtered)%nat)
      by (split; [exact max_polygons_pos | lia]).
    destruct (largest_spec area_km2 max_polygons gdf_filtered f Hn)
      as (_ & Hreach & Hrest & _).
    fold (nlargest max_polygons gdf_filtered) in Hreach, Hrest.
    set (s := stable_sort (fun x y => Qgtb (area_km2 x) (area_km2 y)) gdf_filtered) in *.
    assert (Hs : In f s)
      by (apply (Permutation_in _ (Permutation_sym (stable_sort_perm _ gdf_filtered)) Hf)).
    rewrite <- (firstn_skipn max_polygons s) in Hs.
    apply in_app_or in Hs. destruct Hs as [Hs | Hs].
    + apply Hall. now apply in_map.
    + rewrite Forall_forall in Hrest. apply Hrest in Hs.
      apply (Qle_trans _ _ _ Hs). apply Hall. apply in_map.
      apply last_In. exact Hkept.
Qed.

End EncoderRows.

Lemma sample_keeps_largest_area_witness :
  exists area_max,
    series_max (map area_km2 (snd (gdf_sample (polygons_10001 binary64))))
    = Some area_max /\
    (1 <= area_max)%Q /\
    exists f', In f' (polygons_10001 binary64) /\ area_km2 f' = area_max.
Proof.
  apply (@sample_keeps_largest_area (plane binary64) (polygons_10001 binary64)
           (polygon binary64 0 2020 1 "PA")).
  unfold polygons_10001. apply in_map_iff. exists 0%nat.
  split; [reflexivity |]. apply in_seq.
  split; [apply Nat.le_refl | apply Nat.lt_0_succ].
Defined.

(** ** The encoder: larger areas are never drawn lower *)

Section EncoderMonotone.
Context {backend : Backend}.
Hypothesis laws : Float64Laws float64.
Hypothesis monotone : Float64Monotone float64.

Lemma astype_int_mono (p q : Q) :
  (0 <= p)%Q -> (p <= q)%Q -> astype_int p <= astype_int q.
Proof.
  intros H0 Hle. rewrite !astype_int_floor by lra. now apply Qfloor_resp_le.
Qed.

(** The product the normalisation casts grows with the area. *)
Lemma scaled_ratio_mono (amin amax a a' : Q) (c : Z) :
  is_float64 amin -> is_float64 amax -> is_float64 a -> is_float64 a' ->
  0 <= c <= 50000 ->
  (amin < amax)%Q -> (amin <= a)%Q -> (a <= a')%Q -> (a' <= amax)%Q ->
  astype_int (fmul (fdiv (fsub a amin) (fsub amax amin)) (inject_Z c))
  <= astype_int (fmul (fdiv (fsub a' amin) (fsub amax amin)) (inject_Z c)).
Proof.
  intros Fmin Fmax Fa Fa' Hc Hlt Hlo Hle Hhi.
  assert (Hc0 : (0 <= inject_Z c)%Q) by (unfold Qle; simpl; lia).
  pose proof (factor_float64 laws c Hc) as Fc.
  assert (Hlo' : (a <= amax)%Q) by lra.
  destruct (ratio_unit_interval laws amin amax a Fmin Fmax Fa Hlt Hlo Hlo')
    as [H0 H1].
  pose proof (ratio_float64 laws amin amax a Fmin Fmax Fa) as Fr.
  pose proof (ratio_float64 laws amin amax a' Fmin Fmax Fa') as Fr'.
  apply astype_int_mono.
  - now apply (fmul_unit _ laws).
  - apply (fmul_mono _ monotone); try assumption.
    apply (fdiv_mono _ monotone); try now apply (fsub_float64 _ laws).
    + now apply (fsub_mono _ laws).
    + now apply (fsub_pos _ laws).
Qed.

(** The areas being doubles and rounding monotone, the encoding is monotone:
    of two rows of the map, the one of larger area has an intensity and an
    elevation at least as large and a green channel at most as large. *)
Theorem encoding_is_monotone (gdf_filtered : list Feature) (e1 e2 : Encoded) :
  float64_areas gdf_filtered ->
  In e1 (layer_data (snd (create_choropleth_map gdf_filtered))) ->
  In e2 (layer_data (snd (create_choropleth_map gdf_filtered))) ->
  (area_km2 (feature e1) <= area_km2 (feature e2))%Q ->
  color_intensity e1 <= color_intensity e2 /\
  elevation e1 <= elevation e2 /\
  nth 1 (color e2) 0 <= nth 1 (color e1) 0.
Proof.
  intros Hfloat He1 He2 Hle.
  pose proof (intensity_range laws _ e1 Hfloat He1) as Hr1.
  pose proof (intensity_range laws _ e2 Hfloat He2) as Hr2.
  destruct (layer_row _ e1 He1) as [Hf1 Ee1].
  destruct (layer_row _ e2 He2) as [Hf2 Ee2].
  assert (Hlevels : color_intensity e1 <= color_intensity e2 /\
                    elevation e1 <= elevation e2).
  { destruct (sample_bounds _ _ Hf1) as (amin & amax & Hmin & Hmax & Hlo1 & Hhi1).
    destruct (sample_bounds _ _ Hf2) as (amin' & amax' & Hmin' & Hmax' & Hlo2 & Hhi2).
    rewrite Hmin in Hmin'. rewrite Hmax in Hmax'.
    injection Hmin' as <-. injection Hmax' as <-.
    destruct (bounds_float64 _ amin amax Hfloat Hmin Hmax) as [Fmin Fmax].
    assert (F1 : is_float64 (area_km2 (feature e1)))
      by (apply (sample_float64 gdf_filtered); [exact Hfloat | now apply in_map]).
    assert (F2 : is_float64 (area_km2 (feature e2)))
      by (apply (sample_float64 gdf_filtered); [exact Hfloat | now apply in_map]).
    rewrite Hmin, Hmax in Ee1, Ee2.
    pose proof (encode_row_normalise (Some amin) (Some amax) (feature e1)) as E1.
    pose proof (encode_row_normalise (Some amin) (Some amax) (feature e2)) as E2.
    rewrite <- Ee1 in E1. rewrite <- Ee2 in E2.
    destruct (Qlt_le_dec amin amax) as [Hlt | Hge].
    - destruct (normalise_spread laws amin amax _ Fmin Fmax F1 Hlt Hlo1 Hhi1)
        as (En1 & _).
      destruct (normalise_spread laws amin amax _ Fmin Fmax F2 Hlt Hlo2 Hhi2)
        as (En2 & _).
      rewrite En1 in E1. rewrite En2 in E2.
      injection E1 as -> ->. injection E2 as -> ->.
      unfold intensity_of, elevation_of. split.
      + apply (scaled_ratio_mono amin amax _ _ 255); auto; lia.
      + apply Z.add_le_mono_r.
        apply (scaled_ratio_mono amin amax _ _ 50000); auto; lia.
    - rewrite normalise_uniform in E1, E2 by lra.
      injection E1 as -> ->. injection E2 as -> ->. lia. }
  destruct Hlevels as [Hi Hh]. split; [exact Hi | split; [exact Hh |]].
  assert (Ec1 : color e1 = color_of (color_intensity e1)).
  { rewrite Ee1 at 1. rewrite encode_row_color. now rewrite <- Ee1. }
  assert (Ec2 : color e2 = color_of (color_intensity e2)).
  { rewrite Ee2 at 1. rewrite encode_row_color. now rewrite <- Ee2. }
  rewrite Ec1, Ec2. unfold color_of. cbn [nth].
  rewrite !(color_green laws) by assumption.
  apply Z.sub_le_mono_l. apply Z.div_le_mono; lia.
Qed.

End EncoderMonotone.

(** Arithmetic without rounding is monotone. *)
Lemma exact_monotone : Float64Monotone exact.
Proof.
  split; simpl.
  - intros x x' y _ _ _ Hle Hy. unfold Qdiv.
    apply Qmult_le_compat_r; [exact Hle |].
    apply Qlt_le_weak, Qinv_lt_0_compat, Hy.
  - intros r r' c _ _ _ Hle Hc. now apply Qmult_le_compat_r.
Qed.

(** On the rows of area 1.0 and 24.0 of the areas 1.0, 24.0, 41.0: the
    intensities are 0 and 146, the elevations 5000 and 33750, the green
    channels 255 and 182. *)
Lemma encoding_is_monotone_witness :
  color_intensity (encode_row (Some 1%Q) (Some 41%Q) (polygon exact 0 2020 1 "PA"))
  <= color_intensity (encode_row (Some 1%Q) (Some 41%Q) (polygon exact 1 2020 24 "PA")) /\
  elevation (encode_row (Some 1%Q) (Some 41%Q) (polygon exact 0 2020 1 "PA"))
  <= elevation (encode_row (Some 1%Q) (Some 41%Q) (polygon exact 1 2020 24 "PA")) /\
  nth 1 (color (encode_row (Some 1%Q) (Some 41%Q) (polygon exact 1 2020 24 "PA"))) 0
  <= nth 1 (color (encode_row (Some 1%Q) (Some 41%Q) (polygon exact 0 2020 1 "PA"))) 0.
Proof.
  apply (@encoding_is_monotone (plane exact) exact_laws exact_monotone
           (areas_1_24_41 exact) _ _ (fun _ _ => I)).
  - left. reflexivity.
  - right. left. reflexivity.
  - vm_compute. discriminate.
Defined.

(** ** The loader: renaming *)

Section RenameFacts.

(** A label no key of the mapping equals, or that the mapping sends to
    itself, stays. *)
Lemma rename_label_fixed (m : list (string * string)) (l : string) :
  (forall v, In (l, v) m -> v = l) -> rename_label m l = l.
Proof.
  induction m as [|[k v] m IH]; intros H; simpl; [reflexivity |].
  destruct (String.eqb_spec k l) as [-> | Hne].
  - apply H. now left.
  - apply IH. intros v' Hv'. apply H. now right.
Qed.

(** The keys being distinct, a key goes to its value. *)
Lemma rename_label_key (m : list (string * string)) (k v : string) :
  NoDup (map fst m) -> In (k, v) m -> rename_label m k = v.
Proof.
  induction m as [|[k' v'] m IH]; intros Hnd Hin; [destruct Hin |].
  simpl. inversion Hnd as [| ? ? Hnotin Hnd']; subst.
  destruct Hin as [[= -> ->] | Hin].
  - now rewrite String.eqb_refl.
  - destruct (String.eqb_spec k' k) as [-> | Hne].
    + exfalso. apply Hnotin. now apply (in_map fst _ (k, v)).
    + now apply IH.
Qed.

(** The keys of the mappings kept by a filter are distinct when those of the
    mapping are. *)
Lemma filtered_keys_distinct (keep : string * string -> bool)
  (m : list (string * string)) :
  NoDup (map fst m) -> NoDup (map fst (filter keep m)).
Proof.
  induction m as [|[k v] m IH]; intros Hnd; [exact Hnd |].
  inversion Hnd as [| ? ? Hk Hnd']; subst. simpl.
  destruct (keep (k, v)); [| now apply IH].
  simpl. constructor; [| now apply IH].
  intros Hin. apply Hk. apply in_map_iff in Hin.
  destruct Hin as (kv & Ekv & Hkv). apply filter_In in Hkv.
  apply in_map_iff. exists kv. tauto.
Qed.

Lemma column_mapping_keys : NoDup (map fst column_mapping).
Proof.
  unfold column_mapping. simpl.
  repeat (constructor; [simpl; intuition discriminate |]). constructor.
Qed.

(** A value of [column_mapping] that is a key of it is sent to itself. *)
Lemma column_mapping_values (k v v' : string) :
  In (k, v) column_mapping -> In (v, v') column_mapping -> v' = v.
Proof.
  assert (H : forallb (fun kv => forallb (fun kv' =>
                negb (String.eqb (fst kv') (snd kv)) || String.eqb (snd kv') (snd kv))
                column_mapping) column_mapping = true)
    by (vm_compute; reflexivity).
  intros Hk Hv. rewrite forallb_forall in H. specialize (H _ Hk).
  rewrite forallb_forall in H. specialize (H _ Hv). simpl in H.
  rewrite String.eqb_refl in H. simpl in H. now apply String.eqb_eq in H.
Qed.

(** What the mappings found in a table do to a label of that table. *)
Lemma rename_label_existing (labels : list string) (l : string) :
  In l labels ->
  let existing_mappings :=
    filter (fun kv => label_in (fst kv) labels) column_mapping in
  (forall v, In (l, v) column_mapping -> rename_label existing_mappings l = v) /\
  ((forall v, ~ In (l, v) column_mapping) -> rename_label existing_mappings l = l).
Proof.
  intros Hl existing_mappings. split.
  - intros v Hv. apply rename_label_key.
    + apply filtered_keys_distinct, column_mapping_keys.
    + apply filter_In. split; [exact Hv |]. simpl.
      unfold label_in. apply existsb_exists. exists l.
      split; [exact Hl | apply String.eqb_refl].
  - intros Hnone. apply rename_label_fixed. intros v Hv.
    apply filter_In in Hv. destruct Hv as [Hv _]. now apply Hnone in Hv.
Qed.

Lemma in_column_mapping_dec (l : string) :
  (exists v, In (l, v) column_mapping) \/ (forall v, ~ In (l, v) column_mapping).
Proof.
  destruct (in_dec string_dec l (map fst column_mapping)) as [Hin | Hnot].
  - left. apply in_map_iff in Hin. destruct Hin as ([k v] & E & Hin).
    simpl in E. subst k. now exists v.
  - right. intros v Hv. apply Hnot. now apply (in_map fst _ (l, v)).
Qed.

(** Renaming twice is renaming once, and renaming keeps the number of
    columns: a table whose columns already have the dashboard's names is
    read as it is. *)
Theorem rename_columns_idempotent (labels : list string) :
  rename_columns (rename_columns labels) = rename_columns labels /\
  length (rename_columns labels) = length labels.
Proof.
  split; [| unfold rename_columns; apply length_map].
  unfold rename_columns at 1. cbv zeta.
  set (m' := filter _ column_mapping).
  rewrite <- (map_id (rename_columns labels)) at 2.
  apply map_ext_in. intros r Hr.
  apply rename_label_fixed. intros v' Hv'.
  apply filter_In in Hv'. destruct Hv' as [Hv' _].
  unfold rename_columns in Hr. apply in_map_iff in Hr.
  destruct Hr as (l & <- & Hl).
  destruct (rename_label_existing labels l Hl) as [Hkey Hnone].
  destruct (in_column_mapping_dec l) as [[v Hv] | Hnot].
  - rewrite (Hkey v Hv) in *. exact (column_mapping_values l v v' Hv Hv').
  - rewrite (Hnone Hnot) in *. now apply Hnot in Hv'.
Qed.

End RenameFacts.

(** ** The loader: outcomes *)

Lemma positions_app (l : string) (a b : list string) (from : nat) :
  positions l (a ++ b) from
  = positions l a from ++ positions l b (from + length a).
Proof.
  revert from. induction a as [|x a IH]; intros from; simpl.
  - now rewrite Nat.add_0_r.
  - rewrite IH, Nat.add_succ_r. now destruct (String.eqb l x).
Qed.

Lemma positions_In (l : string) (labels : list string) (from : nat) :
  In l labels -> positions l labels from <> [].
Proof.
  revert from. induction labels as [|x t IH]; intros from; [intros [] |].
  simpl. destruct (String.eqb_spec l x) as [-> | Hne]; [discriminate |].
  intros [E | Hin]; [congruence | now apply IH].
Qed.

Lemma positions_not_In (l : string) (labels : list string) (from : nat) :
  label_in l labels = false -> positions l labels from = [].
Proof.
  revert from. induction labels as [|x t IH]; intros from; [reflexivity |].
  simpl. destruct (String.eqb l x); [discriminate |]. apply IH.
Qed.

Lemma label_in_In (l : string) (labels : list string) :
  label_in l labels = true <-> In l labels.
Proof.
  unfold label_in. rewrite existsb_exists. split.
  - intros (x & Hx & E). apply String.eqb_eq in E. now subst.
  - intros H. exists l. split; [exact H | apply String.eqb_refl].
Qed.

(** Two columns of one label: the label selects no single column. *)
Lemma column_pos_twice (l : string) (a c : list string) :
  In l (a ++ c) -> column_pos l (a ++ l :: c) = None.
Proof.
  intros Hin. unfold column_pos.
  rewrite positions_app. simpl. rewrite String.eqb_refl.
  apply in_app_or in Hin. destruct Hin as [Hin | Hin].
  - pose proof (positions_In l a 0 Hin) as Hne.
    destruct (positions l a 0) as [|p [|q ps]]; [congruence | reflexivity |].
    reflexivity.
  - pose proof (positions_In l c (S (0 + length a)) Hin) as Hne.
    destruct (positions l a 0) as [|p ps]; simpl.
    + destruct (positions l c _); [congruence | reflexivity].
    + destruct ps; reflexivity.
Qed.

Section LoaderOutcomes.
Context {backend : Backend}.

(** [load_data] either returns a table and displays nothing, or returns no
    table and displays one error: a missing year column, a missing area
    column, or the message of its handler. *)
Theorem load_data_outcome (raw : DataFrame) :
  (exists gdf, load_data raw = ([], Some gdf)) \/
  (exists err,
     load_data raw = ([err], None) /\
     (err = ErrorYearColumn \/ err = ErrorAreaColumn \/ err = ErrorLoad)).
Proof.
  unfold load_data, load_data_try. cbv zeta.
  destruct (label_in "ano" _); [| right; exists ErrorYearColumn; auto].
  destruct (column_pos "ano" _); [| right; exists ErrorLoad; auto].
  destruct (label_in "area_km2" _); [| right; exists ErrorAreaColumn; auto].
  destruct (column_pos "area_km2" _); [| right; exists ErrorLoad; auto].
  destruct (municipio_source _); [| right; exists ErrorLoad; auto].
  destruct (traverse _ _) as [fs |]; [| right; exists ErrorLoad; auto].
  left. eexists. reflexivity.
Qed.

(** A table with the year and the area but with neither a [path_row] nor a
    state column cannot be loaded: line 86 reads the missing column [uf],
    and the handler reports the KeyError. *)
Theorem load_data_needs_state_or_path_row (raw : DataFrame) :
  let labels := rename_columns (columns raw) in
  label_in "ano" labels = true ->
  label_in "area_km2" labels = true ->
  label_in "path_row" labels = false ->
  label_in "uf" labels = false ->
  load_data raw = ([ErrorLoad], None).
Proof.
  intros labels Hano Harea Hpath Huf.
  unfold load_data, load_data_try. cbv zeta. fold labels.
  rewrite Hano, Harea.
  assert (Hmun : municipio_source labels = None).
  { unfold municipio_source, column_pos. rewrite Hpath.
    now rewrite positions_not_In. }
  rewrite Hmun.
  destruct (column_pos "ano" labels); [| reflexivity].
  destruct (column_pos "area_km2" labels); reflexivity.
Qed.

(** A table that has both a [year] and an [ano] column cannot be loaded:
    after the renaming two columns are labelled [ano], [pd.to_numeric]
    refuses the pair, and the handler reports it. *)
Theorem load_data_year_and_ano (raw : DataFrame) :
  label_in "year" (columns raw) = true ->
  label_in "ano" (columns raw) = true ->
  load_data raw = ([ErrorLoad], None).
Proof.
  intros Hyear Hano.
  apply label_in_In in Hyear. apply label_in_In in Hano.
  pose proof (rename_label_existing (columns raw) "year" Hyear) as [Ryear _].
  pose proof (rename_label_existing (columns raw) "ano" Hano) as [_ Rano].
  specialize (Ryear "ano"%string (or_introl eq_refl)).
  assert (Hnokey : forall v, ~ In ("ano"%string, v) column_mapping)
    by (intros v Hv; unfold column_mapping in Hv; simpl in Hv; intuition discriminate).
  specialize (Rano Hnokey).
  unfold load_data, load_data_try, rename_columns. cbv zeta.
  set (m := filter _ column_mapping) in *.
  assert (Hlab : label_in "ano" (map (rename_label m) (columns raw)) = true).
  { apply label_in_In. rewrite <- Rano at 1. now apply in_map. }
  assert (Hpos : column_pos "ano" (map (rename_label m) (columns raw)) = None).
  { destruct (in_split _ _ Hyear) as (a & c & E).
    assert (Hin : In "ano"%string (a ++ c)).
    { rewrite E in Hano. apply in_app_or in Hano.
      apply in_or_app. destruct Hano as [H | [H | H]]; auto. discriminate. }
    rewrite E, map_app. simpl. rewrite Ryear.
    apply column_pos_twice. rewrite <- map_app.
    rewrite <- Rano at 1. now apply in_map. }
  now rewrite Hlab, Hpos.
Qed.

End LoaderOutcomes.

(** ** The loader: what a loaded row carries *)

Lemma Forall2_compose {A B C : Type} (R : A -> B -> Prop) (S : B -> C -> Prop)
  (T : A -> C -> Prop) (la : list A) (lb : list B) (lc : list C) :
  (forall a b c, R a b -> S b c -> T a c) ->
  Forall2 R la lb -> Forall2 S lb lc -> Forall2 T la lc.
Proof.
  intros H HR. revert lc.
  induction HR as [| a b la lb Hab _ IH]; intros lc HS;
    inversion HS; subst; constructor; eauto.
Qed.

Lemma Forall2_flip {A B : Type} (R : A -> B -> Prop) (la : list A) (lb : list B) :
  Forall2 R la lb -> Forall2 (fun b a => R a b) lb la.
Proof. induction 1; constructor; auto. Qed.

Section LoadedRows.
Context {backend : Backend}.

Lemma make_feature_cells (labels : list string) (p_mun : nat) (c : option CRS)
  (row : RawRow * Z * Q) (f : Feature) :
  make_feature labels p_mun c row = Some f ->
  municipio f = cell_at p_mun (fst (fst row)) /\
  uf f = match column_pos "uf" labels with
         | Some p => cell_at p (fst (fst row))
         | None => CNaN
         end /\
  reproject c (raw_geometry (fst (fst row))) = Some (geometry f).
Proof.
  destruct row as [[r y] a]. unfold make_feature.
  destruct (reproject c (raw_geometry r)) as [g |] eqn:E; [| discriminate].
  intros [= <-]. simpl. split; [reflexivity | split; [reflexivity | exact E]].
Qed.

(** The rows of a loaded table against the rows of the raw table that were
    kept, in order: [municipio] is the cell of [path_row] when the table has
    that column and the state otherwise; the geometry is the raw one when the
    table declares no reference system or EPSG:4326, and its reprojection
    otherwise. The loaded table has the columns [ano], [area_km2] and
    [municipio]. *)
Theorem loaded_rows_carry (raw : DataFrame) (log : list Output) (gdf : GeoDataFrame) :
  load_data raw = (log, Some gdf) ->
  let labels := rename_columns (columns raw) in
  (label_in "ano" (gdf_columns gdf) = true /\
   label_in "area_km2" (gdf_columns gdf) = true /\
   label_in "municipio" (gdf_columns gdf) = true) /\
  exists p_ano p_area p_mun,
    column_pos "ano" labels = Some p_ano /\
    column_pos "area_km2" labels = Some p_area /\
    column_pos (if label_in "path_row" labels then "path_row" else "uf") labels
    = Some p_mun /\
    Forall2 (fun (f : Feature) (r : RawRow) =>
               municipio f = cell_at p_mun r /\
               (label_in "path_row" labels = false -> municipio f = uf f) /\
               match crs raw with
               | None => geometry f = raw_geometry r
               | Some c =>
                   if is_epsg4326 c then geometry f = raw_geometry r
                   else to_crs c (raw_geometry r) = Some (geometry f)
               end)
            (features gdf)
            (filter (valid_row p_ano p_area) (rows raw)).
Proof.
  intros Hload labels.
  destruct (load_data_some raw log gdf Hload)
    as (_ & Hano & Harea & Hcols & p_ano & p_area & p_mun & Ha & Hr & Hm & Hfs).
  fold labels in Hano, Harea, Hcols, Ha, Hr, Hm, Hfs. split.
  - rewrite Hcols. destruct (label_in "municipio" labels) eqn:Hmun.
    + auto.
    + split; [now apply label_in_app | split; [now apply label_in_app |]].
      unfold label_in. rewrite existsb_app. simpl. apply orb_true_r.
  - exists p_ano, p_area, p_mun.
    split; [exact Ha | split; [exact Hr | split]].
    + unfold municipio_source in Hm. now destruct (label_in "path_row" labels).
    + apply traverse_Forall2 in Hfs.
      pose proof (coerce_spec p_ano p_area (rows raw)) as Hrows.
      apply Forall2_flip in Hfs.
      refine (Forall2_compose _ _ _ _ _ _ _ Hfs Hrows).
      intros f row r Hmk (Er & _). cbv beta in Hmk.
      destruct (make_feature_cells _ _ _ _ _ Hmk) as (Emun & Euf & Egeo).
      rewrite Er in Emun, Euf, Egeo. split; [exact Emun | split].
      * intros Hpath. unfold municipio_source in Hm. rewrite Hpath in Hm.
        rewrite Emun, Euf, Hm. reflexivity.
      * unfold reproject in Egeo. destruct (crs raw) as [c |].
        -- destruct (is_epsg4326 c); simpl in Egeo; [now injection Egeo | exact Egeo].
        -- now injection Egeo.
Qed.

End LoadedRows.

(** ** The page: filters and default selection *)

Lemma fold_Zmax_spec (t : list Z) (x : Z) :
  In (fold_left Z.max t x) (x :: t) /\
  Forall (fun y => y <= fold_left Z.max t x) (x :: t).
Proof.
  revert x. induction t as [|a t IH]; intros x; simpl.
  - split; [now left | constructor; [lia | constructor]].
  - destruct (IH (Z.max x a)) as [Hin Hall].
    inversion Hall as [| ? ? Hm Hall']; subst. split.
    + destruct Hin as [E | Hin]; [| now right; right].
      rewrite <- E. destruct (Z.max_spec x a) as [[_ ->] | [_ ->]]; auto.
    + constructor; [lia | constructor; [lia | exact Hall']].
Qed.

Lemma fold_Zmin_spec (t : list Z) (x : Z) :
  In (fold_left Z.min t x) (x :: t) /\
  Forall (fun y => fold_left Z.min t x <= y) (x :: t).
Proof.
  revert x. induction t as [|a t IH]; intros x; simpl.
  - split; [now left | constructor; [lia | constructor]].
  - destruct (IH (Z.min x a)) as [Hin Hall].
    inversion Hall as [| ? ? Hm Hall']; subst. split.
    + destruct Hin as [E | Hin]; [| now right; right].
      rewrite <- E. destruct (Z.min_spec x a) as [[_ ->] | [_ ->]]; auto.
    + constructor; [lia | constructor; [lia | exact Hall']].
Qed.

Section PageFilters.
Context {backend : Backend}.

(** The ends of the slider are years of the table and hold every year of it
    between them. *)
Lemma ano_bounds (gdf : list Feature) :
  gdf <> [] ->
  exists lo hi,
    ano_min gdf = Some lo /\ ano_max gdf = Some hi /\
    (exists f, In f gdf /\ ano f = lo) /\
    (exists f, In f gdf /\ ano f = hi) /\
    forall f, In f gdf -> lo <= ano f <= hi.
Proof.
  destruct gdf as [|f0 t]; [congruence | intros _].
  destruct (fold_Zmin_spec (map ano t) (ano f0)) as [Hin Hall].
  destruct (fold_Zmax_spec (map ano t) (ano f0)) as [Hin' Hall'].
  change (ano f0 :: map ano t) with (map ano (f0 :: t)) in *.
  exists (fold_left Z.min (map ano t) (ano f0)),
         (fold_left Z.max (map ano t) (ano f0)).
  rewrite Forall_forall in Hall, Hall'.
  apply in_map_iff in Hin. apply in_map_iff in Hin'.
  destruct Hin as (f & E & Hf). destruct Hin' as (f' & E' & Hf').
  repeat split; eauto.
  - apply Hall. now apply in_map.
  - apply Hall'. now apply in_map.
Qed.

(** Which rows the filters keep. The table having its year column, a row is
    shown when it is of the selected year and of one of the selected states;
    selecting no state selects them all, as does a table without state
    column, and the year 0, which Python takes for no selection, selects
    every year. *)
Theorem filters_select (gdf : GeoDataFrame) (ano_selecionado : Z)
  (estados_selecionados : list cell) (f : Feature) :
  label_in "ano" (gdf_columns gdf) = true ->
  In f (apply_filters gdf ano_selecionado estados_selecionados) <->
  In f (features gdf) /\
  (ano_selecionado <> 0 -> ano f = ano_selecionado) /\
  (estados_selecionados <> [] -> label_in "uf" (gdf_columns gdf) = true ->
   isin (uf f) estados_selecionados = true).
Proof.
  intros Hano. unfold apply_filters. cbv zeta. rewrite Hano, andb_true_r.
  destruct (Z.eqb_spec ano_selecionado 0) as [Hy | Hy]; simpl;
    (destruct estados_selecionados as [|s0 S]; simpl;
     [| destruct (label_in "uf" (gdf_columns gdf)); simpl]);
    rewrite ?filter_In, ?Z.eqb_eq; intuition congruence.
Qed.


End PageFilters.

(** ** The page: the years and the state of the largest totals *)

Section IdxFacts.
Context {K : Type}.

(** The row [idxmax] stops on: every row before it holds a smaller value and
    no row after it a larger one. *)
Lemma fold_max_first (t : list (K * Q)) (r : K * Q) :
  let best :=
    fold_left (fun best x => if Qgtb (snd x) (snd best) then x else best) t r in
  exists pre post,
    r :: t = pre ++ best :: post /\
    (forall x, In x pre -> (snd x < snd best)%Q) /\
    (forall x, In x post -> (snd x <= snd best)%Q).
Proof.
  induction t as [|x t IH] using rev_ind; cbv zeta.
  - exists [], []. simpl. intuition.
  - rewrite fold_left_app. simpl.
    destruct IH as (pre & post & E & Hpre & Hpost).
    set (b := fold_left _ t r) in *.
    destruct (Qgtb (snd x) (snd b)) eqn:G.
    + apply Qgtb_lt in G. exists (r :: t), []. split; [| split].
      * now rewrite app_comm_cons.
      * intros z Hz. rewrite E in Hz. apply in_app_or in Hz.
        destruct Hz as [Hz | [<- | Hz]].
        -- apply Hpre in Hz. lra.
        -- exact G.
        -- apply Hpost in Hz. lra.
      * intros z [].
    + apply Qgtb_le in G. exists pre, (post ++ [x]). split; [| split].
      * rewrite app_comm_cons, E, <- app_assoc. reflexivity.
      * exact Hpre.
      * intros z Hz. apply in_app_or in Hz.
        destruct Hz as [Hz | [<- | []]]; [now apply Hpost | exact G].
Qed.

Lemma fold_min_first (t : list (K * Q)) (r : K * Q) :
  let best :=
    fold_left (fun best x => if Qgtb (snd best) (snd x) then x else best) t r in
  exists pre post,
    r :: t = pre ++ best :: post /\
    (forall x, In x pre -> (snd best < snd x)%Q) /\
    (forall x, In x post -> (snd best <= snd x)%Q).
Proof.
  induction t as [|x t IH] using rev_ind; cbv zeta.
  - exists [], []. simpl. intuition.
  - rewrite fold_left_app. simpl.
    destruct IH as (pre & post & E & Hpre & Hpost).
    set (b := fold_left _ t r) in *.
    destruct (Qgtb (snd b) (snd x)) eqn:G.
    + apply Qgtb_lt in G. exists (r :: t), []. split; [| split].
      * now rewrite app_comm_cons.
      * intros z Hz. rewrite E in Hz. apply in_app_or in Hz.
        destruct Hz as [Hz | [<- | Hz]].
        -- apply Hpre in Hz. lra.
        -- exact G.
        -- apply Hpost in Hz. lra.
      * intros z [].
    + apply Qgtb_le in G. exists pre, (post ++ [x]). split; [| split].
      * rewrite app_comm_cons, E, <- app_assoc. reflexivity.
      * exact Hpre.
      * intros z Hz. apply in_app_or in Hz.
        destruct Hz as [Hz | [<- | []]]; [now apply Hpost | exact G].
Qed.

Lemma idxmax_first (tbl : list (K * Q)) :
  tbl <> [] ->
  exists pre k v post,
    idxmax tbl = Some k /\ tbl = pre ++ (k, v) :: post /\
    (forall x, In x pre -> (snd x < v)%Q) /\
    (forall x, In x post -> (snd x <= v)%Q).
Proof.
  destruct tbl as [|r t]; [congruence | intros _].
  destruct (fold_max_first t r) as (pre & post & E & Hpre & Hpost).
  unfold idxmax. set (b := fold_left _ t r) in *.
  exists pre, (fst b), (snd b), post. rewrite <- surjective_pairing. auto.
Qed.

Lemma idxmin_first (tbl : list (K * Q)) :
  tbl <> [] ->
  exists pre k v post,
    idxmin tbl = Some k /\ tbl = pre ++ (k, v) :: post /\
    (forall x, In x pre -> (v < snd x)%Q) /\
    (forall x, In x post -> (v <= snd x)%Q).
Proof.
  destruct tbl as [|r t]; [congruence | intros _].
  destruct (fold_min_first t r) as (pre & post & E & Hpre & Hpost).
  unfold idxmin. set (b := fold_left _ t r) in *.
  exists pre, (fst b), (snd b), post. rewrite <- surjective_pairing. auto.
Qed.

End IdxFacts.

(** A list in order is left as it is by the sort. *)
Lemma stable_sort_of_sorted {A : Type} (before : A -> A -> bool) (l : list A) :
  StronglySorted (fun a b => before b a = false) l -> stable_sort before l = l.
Proof.
  induction 1 as [|x t Hs IH Hx]; [reflexivity |].
  simpl. fold (stable_sort before t). rewrite IH.
  destruct t as [|y t']; [reflexivity |]. simpl.
  inversion Hx as [| ? ? Hy _]; subst. now rewrite Hy.
Qed.

Lemma StronglySorted_app_inv {A : Type} (R : A -> A -> Prop) (pre post : list A) (b : A) :
  StronglySorted R (pre ++ b :: post) ->
  (forall x, In x pre -> R x b) /\ (forall x, In x post -> R b x).
Proof.
  induction pre as [|a pre IH]; simpl; intros Hs.
  - inversion Hs as [| ? ? _ Hall]; subst. rewrite Forall_forall in Hall.
    split; [intros ? [] | exact Hall].
  - inversion Hs as [| ? ? Hs' Hall]; subst. rewrite Forall_forall in Hall.
    destruct (IH Hs') as [Hpre Hpost]. split; [| exact Hpost].
    intros x [<- | Hx]; [| now apply Hpre].
    apply Hall. apply in_or_app. right. now left.
Qed.

Section PageStatistics.
Context {backend : Backend}.

(** After [groupby], which hands the years in ascending order, the
    [sort_values('ano')] of line 410 moves nothing. *)
Lemma evolucao_temporal_groupby (gdf : list Feature) :
  evolucao_temporal gdf
  = groupby_sum Z.compare (map (fun f => (ano f, area_km2 f)) gdf).
Proof.
  unfold evolucao_temporal. apply stable_sort_of_sorted.
  destruct (groupby_sum_spec Z.compare Z_compare_laws
              (map (fun f => (ano f, area_km2 f)) gdf)) as (Hs & _).
  refine (StronglySorted_impl _ _ _ _ Hs).
  intros a b H. cbv beta in *. rewrite Z.compare_lt_iff in H.
  apply Z.ltb_ge. lia.
Qed.

(** The year reported as that of the largest total has a total no year
    exceeds, and is the earliest year with that total; likewise the year of
    the smallest total. Both are years of the table. With no state selected,
    the peak year of the closing analysis (lines 527-531) is the year of the
    largest total. *)
Theorem peak_years (gdf : GeoDataFrame) :
  features gdf <> [] ->
  let tbl := evolucao_temporal (features gdf) in
  exists y_hi s_hi y_lo s_lo,
    ano_maior (features gdf) = Some y_hi /\
    ano_menor (features gdf) = Some y_lo /\
    ano_pico_geral (gdf_para_evolucao gdf []) = Some y_hi /\
    In (y_hi, s_hi) tbl /\ In (y_lo, s_lo) tbl /\
    forall y s, In (y, s) tbl ->
      (s_lo <= s <= s_hi)%Q /\
      (s == s_hi -> y_hi <= y) /\
      (s == s_lo -> y_lo <= y).
Proof.
  intros Hne tbl.
  destruct (evolucao_temporal_spec (features gdf)) as (Hs & _ & Hall).
  fold tbl in Hs, Hall.
  assert (Htbl : tbl <> []).
  { destruct (features gdf) as [|f0 fs]; [congruence |].
    destruct (Hall f0 (or_introl eq_refl)) as [s Hin].
    intros E. rewrite E in Hin. destruct Hin. }
  destruct (idxmax_first tbl Htbl) as (pre & y_hi & s_hi & post & Emax & Esplit & Hpre & Hpost).
  destruct (idxmin_first tbl Htbl) as (pre' & y_lo & s_lo & post' & Emin & Esplit' & Hpre' & Hpost').
  exists y_hi, s_hi, y_lo, s_lo.
  split; [exact Emax | split; [exact Emin | split]].
  { unfold ano_pico_geral, gdf_para_evolucao. simpl.
    rewrite <- evolucao_temporal_groupby. exact Emax. }
  split; [rewrite Esplit; apply in_or_app; right; now left |].
  split; [rewrite Esplit'; apply in_or_app; right; now left |].
  intros y s Hin.
  pose proof Hs as Hs'. rewrite Esplit in Hs. rewrite Esplit' in Hs'.
  apply StronglySorted_app_inv in Hs. apply StronglySorted_app_inv in Hs'.
  destruct Hs as [Spre Spost]. destruct Hs' as [Spre' Spost'].
  pose proof Hin as Hin'. rewrite Esplit in Hin. rewrite Esplit' in Hin'.
  apply in_app_or in Hin. apply in_app_or in Hin'. simpl in *.
  split; [split | split].
  - destruct Hin' as [H | [[= <- <-] | H]];
      [apply Hpre' in H | | apply Hpost' in H]; simpl in *; lra.
  - destruct Hin as [H | [[= <- <-] | H]];
      [apply Hpre in H | | apply Hpost in H]; simpl in *; lra.
  - intros E. destruct Hin as [H | [[= <- <-] | H]].
    + apply Hpre in H. simpl in H. lra.
    + lia.
    + apply Spost in H. simpl in H. lia.
  - intros E. destruct Hin' as [H | [[= <- <-] | H]].
    + apply Hpre' in H. simpl in H. lra.
    + lia.
    + apply Spost' in H. simpl in H. lia.
Qed.

End PageStatistics.

Section StateStatistics.
Context {backend : Backend}.

Lemma group_sum_same_key {K : Type} (compare : K -> K -> comparison)
  (laws : OrderLaws compare) (k k' : K) (rows : list (K * Q)) :
  compare k k' = Eq -> group_sum compare k rows = group_sum compare k' rows.
Proof.
  intros E. unfold group_sum. f_equal. f_equal.
  apply filter_ext. intros r. unfold same_key.
  now rewrite (compare_eq_l _ laws k k' (fst r) E).
Qed.

(** The state reported as the most deforested: it is the state of a row, and
    no state of a row has a larger total. The expression raises exactly
    when no row has a state. *)
Theorem estado_mais_desmatado_spec (gdf_para_evolucao : list Feature) :
  let rows :=
    map (fun f => (uf f, area_km2 f))
        (filter (fun f => negb (is_nan (uf f))) gdf_para_evolucao) in
  (estado_mais_desmatado gdf_para_evolucao = None <->
   forall f, In f gdf_para_evolucao -> is_nan (uf f) = true) /\
  forall estado, estado_mais_desmatado gdf_para_evolucao = Some estado ->
    (exists f, In f gdf_para_evolucao /\ uf f = estado /\ is_nan estado = false) /\
    forall f, In f gdf_para_evolucao -> is_nan (uf f) = false ->
      (group_sum cell_compare (uf f) rows
       <= group_sum cell_compare estado rows)%Q.
Proof.
  intros rows. unfold estado_mais_desmatado. fold rows.
  destruct (groupby_sum_spec cell_compare cell_compare_laws rows)
    as (_ & Hsum & Hall).
  assert (Hrows : forall f, In f gdf_para_evolucao -> is_nan (uf f) = false ->
                            In (uf f, area_km2 f) rows).
  { intros f Hf Hnan. unfold rows.
    apply (in_map (fun f => (uf f, area_km2 f))).
    apply filter_In. split; [exact Hf | now rewrite Hnan]. }
  split.
  - split.
    + intros Hnone f Hf. destruct (is_nan (uf f)) eqn:Hnan; [reflexivity |].
      destruct (Hall _ (Hrows f Hf Hnan)) as (e & He & _).
      destruct (groupby_sum cell_compare rows); [destruct He | discriminate].
    + intros Hnan.
      destruct (groupby_sum cell_compare rows) as [|[k s] t] eqn:E; [reflexivity |].
      destruct (Hsum k s (or_introl eq_refl)) as [_ (v & Hv)].
      unfold rows in Hv. apply in_map_iff in Hv.
      destruct Hv as (f & _ & Hf). apply filter_In in Hf.
      destruct Hf as [Hf Hn]. rewrite (Hnan f Hf) in Hn. discriminate.
  - intros estado Hmax.
    assert (Hne : groupby_sum cell_compare rows <> [])
      by (intros E; rewrite E in Hmax; discriminate).
    destruct (idxmax_first _ Hne) as (pre & k & v & post & Ek & Esplit & Hpre & Hpost).
    rewrite Ek in Hmax. injection Hmax as ->.
    assert (Hin : In (estado, v) (groupby_sum cell_compare rows))
      by (rewrite Esplit; apply in_or_app; right; now left).
    destruct (Hsum _ _ Hin) as [Ev (w & Hw)]. split.
    + unfold rows in Hw. apply in_map_iff in Hw.
      destruct Hw as (f & [= Ef _] & Hf). apply filter_In in Hf.
      destruct Hf as [Hf Hn]. exists f. rewrite <- Ef.
      split; [exact Hf | split; [reflexivity |]].
      now destruct (is_nan (uf f)).
    + intros f Hf Hnan.
      destruct (Hall _ (Hrows f Hf Hnan)) as ([k' s'] & He & Ecmp).
      simpl in Ecmp.
      rewrite (group_sum_same_key cell_compare cell_compare_laws _ _ rows Ecmp).
      destruct (Hsum _ _ He) as [<- _]. rewrite <- Ev.
      rewrite Esplit in He. apply in_app_or in He.
      destruct He as [H | [[= <- <-] | H]].
      * apply Hpre in H. simpl in H. lra.
      * lra.
      * apply Hpost in H. exact H.
Qed.

End StateStatistics.

(** ** The page: the trend and the slider *)

Section TrendSpan.
Context {backend : Backend}.

(** The historical series starts at the smallest year of the slider and ends
    at its largest one, whatever is selected. *)
Theorem trend_spans_slider (gdf : list Feature) :
  option_map fst (hd_error (evolucao_temporal gdf)) = ano_min gdf /\
  option_map fst (hd_error (rev (evolucao_temporal gdf))) = ano_max gdf.
Proof.
  destruct (evolucao_temporal_spec gdf) as (Hs & Hsum & Hall).
  destruct gdf as [|f0 fs] eqn:Egdf.
  { destruct (evolucao_temporal []) as [|[y s] t] eqn:E; [split; reflexivity |].
    destruct (Hsum y s (or_introl eq_refl)) as [_ (f & [] & _)]. }
  rewrite <- Egdf in *.
  assert (Hne : gdf <> []) by (rewrite Egdf; discriminate).
  destruct (ano_bounds gdf Hne)
    as (lo & hi & -> & -> & (flo & Hflo & Elo) & (fhi & Hfhi & Ehi) & Hbounds).
  destruct (Hall flo Hflo) as [slo Hlo]. rewrite Elo in Hlo.
  destruct (Hall fhi Hfhi) as [shi Hhi]. rewrite Ehi in Hhi.
  assert (Hyears : forall y s, In (y, s) (evolucao_temporal gdf) -> lo <= y <= hi).
  { intros y s Hin. destruct (Hsum y s Hin) as [_ (f & Hf & <-)]. now apply Hbounds. }
  split.
  - destruct (evolucao_temporal gdf) as [|[y s] t]; [destruct Hlo |]. simpl.
    f_equal. pose proof (Hyears y s (or_introl eq_refl)) as Hy.
    inversion Hs as [| ? ? _ Hhead]; subst. rewrite Forall_forall in Hhead.
    destruct Hlo as [[= -> _] | Hlo]; [reflexivity |].
    apply Hhead in Hlo. simpl in Hlo. lia.
  - destruct (exists_last (l := evolucao_temporal gdf)) as (t & [y s] & E).
    { intros E. rewrite E in Hlo. destruct Hlo. }
    rewrite E in *. rewrite rev_unit. simpl. f_equal.
    assert (Hy : lo <= y <= hi) by (apply (Hyears y s), in_or_app; right; now left).
    apply in_app_or in Hhi. destruct Hhi as [Hhi | [[= -> _] | []]]; [| reflexivity].
    destruct (StronglySorted_app_inv _ t [] (y, s) Hs) as [Hpre _].
    apply Hpre in Hhi. simpl in Hhi. lia.
Qed.

End TrendSpan.

(** ** The page: the number of states shown *)

Section UniqueFacts.

Lemma cell_eqb_eq_l (a b c : cell) :
  cell_eqb a b = true -> cell_eqb a c = cell_eqb b c.
Proof.
  unfold cell_eqb. intros H.
  destruct (cell_compare a b) eqn:E; try discriminate.
  now rewrite (compare_eq_l _ cell_compare_laws a b c E).
Qed.

Lemma cell_eqb_sym (a b : cell) : cell_eqb a b = cell_eqb b a.
Proof.
  unfold cell_eqb.
  destruct (cell_compare a b) eqn:E1, (cell_compare b a) eqn:E2; try reflexivity;
    try (apply (compare_eq_sym _ cell_compare_laws) in E1; congruence);
    try (apply (compare_eq_sym _ cell_compare_laws) in E2; congruence).
Qed.

Lemma StronglySorted_filter {A : Type} (R : A -> A -> Prop) (p : A -> bool) (l : list A) :
  StronglySorted R l -> StronglySorted R (filter p l).
Proof.
  induction 1 as [|a l Hs IH Ha]; simpl; [constructor |].
  destruct (p a); [| exact IH]. constructor; [exact IH |].
  rewrite Forall_forall in *. intros x Hx. apply filter_In in Hx. now apply Ha.
Qed.

(** The values [unique] hands back differ from one another and are values
    of the column. *)
Lemma unique_distinct (l : list cell) :
  StronglySorted (fun a b => cell_eqb a b = false) (unique l).
Proof.
  induction l as [|c t IH]; simpl; constructor.
  - now apply StronglySorted_filter.
  - rewrite Forall_forall. intros x Hx. apply filter_In in Hx.
    destruct Hx as [_ Hx]. now destruct (cell_eqb c x).
Qed.

Lemma unique_In (l : list cell) (c : cell) : In c (unique l) -> In c l.
Proof.
  induction l as [|a t IH]; simpl; [auto |].
  intros [-> | H]; [now left | right].
  apply filter_In in H. now apply IH.
Qed.

(** Values that differ from one another and are all among [values] are no
    more than [values]. *)
Lemma distinct_within (values u : list cell) :
  StronglySorted (fun a b => cell_eqb a b = false) u ->
  (forall c, In c u -> isin c values = true) ->
  (length u <= length values)%nat.
Proof.
  revert u. induction values as [|s values IH]; intros u Hs Hin.
  - destruct u as [|c u]; [apply Nat.le_refl |].
    specialize (Hin c (or_introl eq_refl)). discriminate.
  - rewrite <- (filter_length (fun c => cell_eqb c s) u). simpl.
    assert (H1 : (length (filter (fun c => cell_eqb c s) u) <= 1)%nat).
    { pose proof (StronglySorted_filter _ (fun c => cell_eqb c s) u Hs) as Hs1.
      assert (Hall : forall c, In c (filter (fun c => cell_eqb c s) u) ->
                               cell_eqb c s = true)
        by (intros c Hc; now apply filter_In in Hc).
      destruct (filter (fun c => cell_eqb c s) u) as [|a [|b t]]; simpl; try lia.
      exfalso. inversion Hs1 as [| ? ? _ Ha]; subst.
      inversion Ha as [| ? ? Hab _]; subst.
      pose proof (Hall a (or_introl eq_refl)) as Eas.
      pose proof (Hall b (or_intror (or_introl eq_refl))) as Ebs.
      rewrite (cell_eqb_eq_l a s b Eas), cell_eqb_sym, Ebs in Hab. discriminate. }
    assert (H2 : (length (filter (fun c => negb (cell_eqb c s)) u) <= length values)%nat).
    { apply IH; [now apply StronglySorted_filter |].
      intros c Hc. apply filter_In in Hc. destruct Hc as [Hc Hne].
      specialize (Hin c Hc). unfold isin in *. simpl in Hin.
      destruct (cell_eqb c s); [discriminate | exact Hin]. }
    lia.
Qed.

End UniqueFacts.

Section StatesShown.
Context {backend : Backend}.

(** With states selected, the indicator of affected states never exceeds the
    number of states selected. *)
Theorem num_estados_within_selection (gdf : GeoDataFrame) (ano_selecionado : Z)
  (estados_selecionados : list cell) :
  estados_selecionados <> [] ->
  label_in "uf" (gdf_columns gdf) = true ->
  (num_estados (apply_filters gdf ano_selecionado estados_selecionados)
   <= length estados_selecionados)%nat.
Proof.
  intros Hsel Huf. unfold num_estados, nunique.
  apply distinct_within; [apply unique_distinct |].
  intros c Hc. apply unique_In in Hc. apply filter_In in Hc.
  destruct Hc as [Hc _]. apply in_map_iff in Hc. destruct Hc as (f & <- & Hf).
  unfold apply_filters in Hf. cbv zeta in Hf. rewrite Huf in Hf.
  destruct estados_selecionados as [|s0 S]; [congruence |].
  simpl in Hf. now apply filter_In in Hf.
Qed.

End StatesShown.

(** ** The preparation script and the loader *)

Lemma positions_NoDup (l : string) (labels : list string) (from : nat) :
  NoDup labels -> In l labels ->
  exists p, positions l labels from = [p] /\ nth (p - from) labels EmptyString = l.
Proof.
  revert from. induction labels as [|x t IH]; intros from Hnd Hin; [destruct Hin |].
  inversion Hnd as [| ? ? Hx Hnd']; subst. simpl.
  destruct (String.eqb_spec l x) as [-> | Hne].
  - exists from. rewrite Nat.sub_diag. split; [| reflexivity].
    rewrite positions_not_In; [reflexivity |].
    destruct (label_in x t) eqn:E; [| reflexivity].
    apply label_in_In in E. contradiction.
  - destruct Hin as [E | Hin]; [congruence |].
    destruct (IH (S from) Hnd' Hin) as (p & Ep & En).
    exists p. split; [exact Ep |].
    assert (Hp : (S from <= p)%nat).
    { clear -Ep. revert Ep. generalize (S from) as n.
      induction t as [|y t IH]; intros n; simpl; [discriminate |].
      destruct (String.eqb l y).
      - intros [= <- _]. apply Nat.le_refl.
      - intros E. apply IH in E. lia. }
    replace (p - from)%nat with (S (p - S from)) by lia. exact En.
Qed.

Lemma positions_map (g : string -> string) (l l' : string) (labels : list string)
  (from : nat) :
  (forall x, In x labels -> String.eqb l' (g x) = String.eqb l x) ->
  positions l' (map g labels) from = positions l labels from.
Proof.
  revert from. induction labels as [|x t IH]; intros from H; [reflexivity |].
  simpl. rewrite (H x (or_introl eq_refl)).
  rewrite IH by (intros y Hy; apply H; now right). reflexivity.
Qed.

(** Which label of a table is renamed to [target]: the one [column_mapping]
    sends there, and [target] itself when it is no key of the mapping and is
    a label of the table. *)
Lemma renamed_to (labels : list string) (source target x : string) :
  In (source, target) column_mapping ->
  (forall k, In (k, target) column_mapping -> k = source) ->
  (source <> target -> ~ In target labels) ->
  In x labels ->
  String.eqb target
    (rename_label (filter (fun kv => label_in (fst kv) labels) column_mapping) x)
  = String.eqb source x.
Proof.
  intros Hentry Honly Habsent Hx.
  destruct (rename_label_existing labels x Hx) as [Hkey Hnone].
  destruct (in_column_mapping_dec x) as [[v Hv] | Hnot].
  - rewrite (Hkey v Hv).
    destruct (String.eqb_spec target v) as [<- | Hne].
    + rewrite (Honly x Hv). symmetry. apply String.eqb_refl.
    + destruct (String.eqb_spec source x) as [<- | Hne']; [| reflexivity].
      exfalso. apply Hne.
      pose proof column_mapping_keys as Hnd.
      assert (E : rename_label column_mapping source = target)
        by (now apply rename_label_key).
      assert (E' : rename_label column_mapping source = v)
        by (now apply rename_label_key).
      congruence.
  - rewrite (Hnone Hnot).
    destruct (String.eqb_spec target x) as [<- | Hne].
    + destruct (String.eqb_spec source target) as [E | Hne']; [reflexivity |].
      exfalso. now apply (Habsent Hne').
    + destruct (String.eqb_spec source x) as [<- | Hne']; [| reflexivity].
      exfalso. now apply (Hnot target).
Qed.

Lemma only_source (source target : string) :
  forallb (fun kv => negb (String.eqb (snd kv) target) || String.eqb (fst kv) source)
          column_mapping = true ->
  forall k, In (k, target) column_mapping -> k = source.
Proof.
  intros H k Hk. rewrite forallb_forall in H. specialize (H _ Hk). simpl in H.
  rewrite String.eqb_refl in H. simpl in H. now apply String.eqb_eq in H.
Qed.

(** The column of a renamed label in the renamed table is the column of the
    source label in the table, when the table does not have the new name
    already. *)
Lemma column_pos_renamed (labels : list string) (source target : string) :
  In (source, target) column_mapping ->
  forallb (fun kv => negb (String.eqb (snd kv) target) || String.eqb (fst kv) source)
          column_mapping = true ->
  (source <> target -> ~ In target labels) ->
  positions target (rename_columns labels) 0 = positions source labels 0.
Proof.
  intros Hentry Honly Habsent. unfold rename_columns. cbv zeta.
  apply positions_map. intros x Hx.
  apply renamed_to; auto. now apply only_source.
Qed.

Section SimplifyFacts.
Context {backend : Backend}.
Variable simplify_geometry : Geom -> Geom.

(** The rows of a loaded table against the rows of the raw table that were
    kept: index, year, area, state and [municipio]. *)
Lemma loaded_rows_full (raw : DataFrame) (log : list Output) (gdf : GeoDataFrame) :
  load_data raw = (log, Some gdf) ->
  let labels := rename_columns (columns raw) in
  exists p_ano p_area p_mun,
    column_pos "ano" labels = Some p_ano /\
    column_pos "area_km2" labels = Some p_area /\
    municipio_source labels = Some p_mun /\
    Forall2 (fun (f : Feature) (r : RawRow) =>
               index f = raw_index r /\
               (exists y, to_numeric (cell_at p_ano r) = Some y /\
                          ano f = astype_int64 y) /\
               to_numeric (cell_at p_area r) = Some (area_km2 f) /\
               municipio f = cell_at p_mun r /\
               uf f = match column_pos "uf" labels with
                      | Some p => cell_at p r
                      | None => CNaN
                      end)
            (features gdf)
            (filter (valid_row p_ano p_area) (rows raw)).
Proof.
  intros Hload labels.
  destruct (load_data_some raw log gdf Hload)
    as (_ & _ & _ & _ & p_ano & p_area & p_mun & Ha & Hr & Hm & Hfs).
  fold labels in Ha, Hr, Hm, Hfs.
  exists p_ano, p_area, p_mun.
  split; [exact Ha | split; [exact Hr | split; [exact Hm |]]].
  apply traverse_Forall2 in Hfs. apply Forall2_flip in Hfs.
  refine (Forall2_compose _ _ _ _ _ _ _ Hfs (coerce_spec p_ano p_area (rows raw))).
  intros f row r Hmk (Er & (y & Ey & Ez) & Ea & _). cbv beta in Hmk.
  destruct (make_feature_spec _ _ _ _ _ Hmk) as (Hi & Hy & Hq).
  destruct (make_feature_cells _ _ _ _ _ Hmk) as (Emun & Euf & _).
  rewrite Er in Hi, Emun, Euf. rewrite Hi, Hy, Hq, Emun, Euf.
  repeat split; eauto.
Qed.

(** What the script writes, of a table whose labels are distinct: the five
    columns in the order of [cols_to_keep], every row with its index and its
    simplified geometry, and the reference system. *)
Lemma simplify_shape (raw light : DataFrame) :
  NoDup (columns raw) ->
  simplify simplify_geometry raw = Some light ->
  exists p_year p_area p_state p_sat p_path,
    positions "year" (columns raw) 0 = [p_year] /\
    positions "area_km" (columns raw) 0 = [p_area] /\
    positions "state" (columns raw) 0 = [p_state] /\
    positions "satellite" (columns raw) 0 = [p_sat] /\
    positions "path_row" (columns raw) 0 = [p_path] /\
    light
    = {| columns := cols_to_keep;
         rows := map (fun r =>
                   {| raw_index := raw_index r;
                      raw_cells := [cell_at p_year r; cell_at p_area r;
                                    cell_at p_state r; cell_at p_sat r;
                                    cell_at p_path r];
                      raw_geometry := simplify_geometry (raw_geometry r) |})
                   (rows raw);
         crs := crs raw |}.
Proof.
  intros Hnd. unfold simplify, getitem_columns. cbn [columns rows crs].
  destruct (forallb _ cols_to_keep) eqn:Hall; [| discriminate].
  rewrite forallb_forall in Hall.
  assert (Hpos : forall l, In l cols_to_keep ->
            exists p, positions l (columns raw) 0 = [p] /\
                      nth p (columns raw) EmptyString = l).
  { intros l Hl. apply Hall, label_in_In in Hl.
    destruct (positions_NoDup l (columns raw) 0 Hnd Hl) as (p & Ep & En).
    rewrite Nat.sub_0_r in En. eauto. }
  destruct (Hpos "year"%string) as (p_year & E1 & N1); [simpl; tauto |].
  destruct (Hpos "area_km"%string) as (p_area & E2 & N2); [simpl; tauto |].
  destruct (Hpos "state"%string) as (p_state & E3 & N3); [simpl; tauto |].
  destruct (Hpos "satellite"%string) as (p_sat & E4 & N4); [simpl; tauto |].
  destruct (Hpos "path_row"%string) as (p_path & E5 & N5); [simpl; tauto |].
  intros [= <-]. exists p_year, p_area, p_state, p_sat, p_path.
  repeat (split; [assumption |]).
  unfold cols_to_keep. cbn [flat_map]. rewrite E1, E2, E3, E4, E5.
  cbn [app map]. rewrite N1, N2, N3, N4, N5. rewrite map_map. reflexivity.
Qed.

End SimplifyFacts.

Section SimplifyThenLoad.
Context {backend : Backend}.
Variable simplify_geometry : Geom -> Geom.

Lemma rename_cols_to_keep :
  rename_columns cols_to_keep
  = ["ano"; "area_km2"; "uf"; "satelite"; "path_row"]%string.
Proof. reflexivity. Qed.

Lemma filter_map_rows {A B : Type} (g : A -> B) (p : B -> bool) (q : A -> bool)
  (l : list A) :
  (forall x, p (g x) = q x) -> filter p (map g l) = map g (filter q l).
Proof.
  intros H. induction l as [|x t IH]; simpl; [reflexivity |].
  rewrite H. destruct (q x); simpl; now rewrite IH.
Qed.

Lemma Forall2_map_r {A B C : Type} (R : A -> C -> Prop) (g : B -> C)
  (la : list A) (lb : list B) :
  Forall2 R la (map g lb) -> Forall2 (fun a b => R a (g b)) la lb.
Proof.
  revert la. induction lb as [|b lb IH]; intros la H; inversion H; subst;
    constructor; auto.
Qed.

(** The dashboard reads the same from the table the script writes as from
    the table the script read: a table with distinct labels that has the
    PRODES names and none of the names [ano], [area_km2] and [uf] gives,
    loaded before and after the script, the same rows with the same index,
    year, area, state and [municipio]; only the geometries and the dropped
    columns differ. *)
Theorem simplify_preserves_loaded_rows (raw light : DataFrame)
  (log log' : list Output) (gdf gdf' : GeoDataFrame) :
  NoDup (columns raw) ->
  ~ In "ano"%string (columns raw) ->
  ~ In "area_km2"%string (columns raw) ->
  ~ In "uf"%string (columns raw) ->
  simplify simplify_geometry raw = Some light ->
  load_data raw = (log, Some gdf) ->
  load_data light = (log', Some gdf') ->
  gdf_columns gdf'
  = ["ano"; "area_km2"; "uf"; "satelite"; "path_row"; "municipio"]%string /\
  Forall2 (fun f f' : Feature =>
             index f' = index f /\ ano f' = ano f /\ area_km2 f' = area_km2 f /\
             uf f' = uf f /\ municipio f' = municipio f)
          (features gdf) (features gdf').
Proof.
  intros Hnd Hano Harea Huf Hsimp Hload Hload'.
  destruct (simplify_shape simplify_geometry raw light Hnd Hsimp)
    as (p_year & p_area & p_state & p_sat & p_path
        & E1 & E2 & E3 & E4 & E5 & ->).
  (* the columns the loader reads in the raw table *)
  assert (Hentry : forall source target,
            In (source, target)
               [("year", "ano"); ("area_km", "area_km2"); ("state", "uf");
                ("path_row", "path_row")]%string ->
            In (source, target) column_mapping).
  { intros source target H. unfold column_mapping. simpl in *.
    intuition congruence. }
  assert (Pano : column_pos "ano" (rename_columns (columns raw)) = Some p_year).
  { unfold column_pos.
    rewrite (column_pos_renamed (columns raw) "year" "ano"
               (Hentry _ _ (or_introl eq_refl)) eq_refl (fun _ => Hano)).
    now rewrite E1. }
  assert (Parea : column_pos "area_km2" (rename_columns (columns raw)) = Some p_area).
  { unfold column_pos.
    rewrite (column_pos_renamed (columns raw) "area_km" "area_km2"
               (Hentry _ _ (or_intror (or_introl eq_refl))) eq_refl
               (fun _ => Harea)).
    now rewrite E2. }
  assert (Pstate : column_pos "uf" (rename_columns (columns raw)) = Some p_state).
  { unfold column_pos.
    rewrite (column_pos_renamed (columns raw) "state" "uf"
               (Hentry _ _ (or_intror (or_intror (or_introl eq_refl)))) eq_refl
               (fun _ => Huf)).
    now rewrite E3. }
  assert (Ppath : positions "path_row" (rename_columns (columns raw)) 0 = [p_path]).
  { rewrite (column_pos_renamed (columns raw) "path_row" "path_row"
               (Hentry _ _ (or_intror (or_intror (or_intror (or_introl eq_refl)))))
               eq_refl).
    - exact E5.
    - intros H. congruence. }
  assert (Pmun : municipio_source (rename_columns (columns raw)) = Some p_path).
  { unfold municipio_source, column_pos. rewrite Ppath.
    destruct (label_in "path_row" (rename_columns (columns raw))) eqn:E; [reflexivity |].
    apply (positions_not_In _ _ 0) in E. rewrite E in Ppath. discriminate. }
  (* the two loaded tables against the raw rows *)
  destruct (loaded_rows_full raw log gdf Hload)
    as (q_ano & q_area & q_mun & Qa & Qr & Qm & Hrows).
  rewrite Pano in Qa. rewrite Parea in Qr. rewrite Pmun in Qm. rewrite Pstate in Hrows.
  injection Qa as <-. injection Qr as <-. injection Qm as <-.
  destruct (loaded_rows_full _ log' gdf' Hload')
    as (q_ano & q_area & q_mun & Qa & Qr & Qm & Hrows').
  destruct (load_data_some _ log' gdf' Hload') as (_ & _ & _ & Hcols & _).
  cbn [columns rows] in Qa, Qr, Qm, Hrows', Hcols.
  rewrite rename_cols_to_keep in Qa, Qr, Qm, Hrows', Hcols.
  injection Qa as <-. injection Qr as <-. injection Qm as <-.
  split; [exact Hcols |].
  change (column_pos "uf" ["ano"; "area_km2"; "uf"; "satelite"; "path_row"]%string)
    with (Some 2%nat) in Hrows'.
  erewrite filter_map_rows in Hrows' by (intros r; reflexivity).
  apply Forall2_map_r in Hrows'. apply Forall2_flip in Hrows'.
  refine (Forall2_compose _ _ _ _ _ _ _ Hrows Hrows').
  intros f r f' (Hi & (y & Ey & Ez) & Ea & Em & Eu)
                (Hi' & (y' & Ey' & Ez') & Ea' & Em' & Eu').
  unfold cell_at in Ey', Ea', Em', Eu'. cbn [raw_cells raw_index nth] in *.
  fold (cell_at p_year r) in Ey'. fold (cell_at p_area r) in Ea'.
  fold (cell_at p_path r) in Em'. fold (cell_at p_state r) in Eu'.
  rewrite Ey in Ey'. injection Ey' as <-.
  rewrite Ea in Ea'. injection Ea' as Ea'.
  repeat split; congruence.
Qed.

End SimplifyThenLoad.

Section SimplifiedTable.
Context {backend : Backend}.
Variable simplify_geometry : Geom -> Geom.




End SimplifiedTable.

(** ** The page: what stops it *)

Section PageStops.
Context {backend : Backend}.

(** A table that loads but has no valid row is reported like a table that
    does not load: whatever is selected, the page displays the loading error
    and nothing else. This is the case exactly when no row of the raw table
    has a numeric year and a positive numeric area. *)
Theorem main_without_valid_row (raw : DataFrame) (log : list Output)
  (gdf : GeoDataFrame) (ano_selecionado : Z) (estados_selecionados : list cell) :
  load_data raw = (log, Some gdf) ->
  exists p_ano p_area,
    column_pos "ano" (rename_columns (columns raw)) = Some p_ano /\
    column_pos "area_km2" (rename_columns (columns raw)) = Some p_area /\
    (features gdf = [] <->
     forall r, In r (rows raw) -> valid_row p_ano p_area r = false) /\
    (features gdf = [] ->
     main raw ano_selecionado estados_selecionados = ([ErrorNoData], tt)).
Proof.
  intros Hload.
  destruct (loaded_rows_full raw log gdf Hload)
    as (p_ano & p_area & p_mun & Ha & Hr & _ & Hrows).
  exists p_ano, p_area. split; [exact Ha | split; [exact Hr | split]].
  - split.
    + intros E r Hr'. rewrite E in Hrows.
      apply Forall2_length in Hrows.
      destruct (valid_row p_ano p_area r) eqn:Ev; [| reflexivity].
      assert (Hin : In r (filter (valid_row p_ano p_area) (rows raw)))
        by (apply filter_In; auto).
      destruct (filter (valid_row p_ano p_area) (rows raw));
        [destruct Hin | discriminate].
    + intros Hnone.
      rewrite (filter_none (valid_row p_ano p_area)) in Hrows.
      * now inversion Hrows.
      * rewrite Forall_forall. exact Hnone.
  - intros E. destruct (loaded_has_ano raw log gdf Hload) as [-> _].
    unfold main, bind. rewrite Hload, E. reflexivity.
Qed.

(** A state column that mixes texts with other values (a missing state, a
    number) stops the page before anything is displayed: line 226 sorts the
    states, and Python does not order a text and a value of another kind. *)
Theorem mixed_states_stop_the_page (raw : DataFrame) (log : list Output)
  (gdf : GeoDataFrame) (ano_selecionado : Z) (estados_selecionados : list cell)
  (f f' : Feature) :
  load_data raw = (log, Some gdf) ->
  label_in "uf" (gdf_columns gdf) = true ->
  In f (features gdf) -> is_str (uf f) = true ->
  In f' (features gdf) -> is_str (uf f') = false ->
  main raw ano_selecionado estados_selecionados = ([Uncaught], tt).
Proof.
  intros Hload Huf Hf Hs Hf' Hs'.
  destruct (loaded_has_ano raw log gdf Hload) as [-> _].
  assert (Hraise : sidebar_raises gdf = true).
  { unfold sidebar_raises. destruct (column_pos "uf" (gdf_columns gdf)); [| reflexivity].
    apply andb_true_intro. split; apply existsb_exists.
    - exists f. auto.
    - exists f'. rewrite Hs'. auto. }
  unfold main, bind. rewrite Hload, Huf, Hraise.
  destruct (features gdf); [destruct Hf | reflexivity].
Qed.

(** The stacked bars follow the selection of states and not the selected
    year: the table displayed is the one of all the years of the selected
    states (of every state when none is selected); each of its rows is the
    year and the state of a loaded row, and no row is without state. *)
Theorem bars_follow_states_only (raw : DataFrame) (log : list Output)
  (gdf : GeoDataFrame) (ano_selecionado : Z) (estados_selecionados : list cell)
  (t : list ((Z * cell) * Q)) :
  load_data raw = (log, Some gdf) ->
  In (BarChart t) (fst (main raw ano_selecionado estados_selecionados)) ->
  t = evolucao_por_estado (gdf_para_evolucao gdf estados_selecionados) /\
  forall y estado s, In ((y, estado), s) t ->
    is_nan estado = false /\
    (estados_selecionados <> [] -> isin estado estados_selecionados = true) /\
    exists f, In f (features gdf) /\ ano f = y /\ uf f = estado.
Proof.
  intros Hload Hin.
  rewrite (main_loaded raw _ _ log gdf Hload) in Hin.
  destruct (features gdf) as [|f0 fs] eqn:Efs;
    [simpl in Hin; intuition discriminate |].
  rewrite <- Efs in *.
  destruct (label_in "uf" (gdf_columns gdf)) eqn:Huf; cbn [andb] in Hin.
  2:{ destruct (apply_filters gdf ano_selecionado estados_selecionados) as [|g gl];
        [simpl in Hin; intuition discriminate |].
      apply in_app_or in Hin. destruct Hin as [Hin | Hin].
      - destruct (gdf_sample_log_cases (g :: gl)) as [E | E];
          rewrite E in Hin; simpl in Hin; intuition discriminate.
      - simpl in Hin. intuition discriminate. }
  destruct (sidebar_raises gdf); [simpl in Hin; intuition discriminate |].
  destruct (apply_filters gdf ano_selecionado estados_selecionados) as [|g gl];
    [simpl in Hin; intuition discriminate |].
  apply in_app_or in Hin. destruct Hin as [Hin | Hin].
  { destruct (gdf_sample_log_cases (g :: gl)) as [E | E];
      rewrite E in Hin; simpl in Hin; intuition discriminate. }
  simpl in Hin. destruct Hin as [Hin | [Hin | [Hin | []]]]; try discriminate.
  injection Hin as <-. split; [reflexivity |].
  intros y estado s Hrow.
  unfold evolucao_por_estado in Hrow.
  apply (Permutation_in _ (stable_sort_perm _ _)) in Hrow.
  destruct (groupby_sum_spec ano_uf_compare ano_uf_compare_laws
              (map (fun f => ((ano f, uf f), area_km2 f))
                   (filter (fun f => negb (is_nan (uf f)))
                           (gdf_para_evolucao gdf estados_selecionados))))
    as (_ & Hsum & _).
  destruct (Hsum _ _ Hrow) as [_ (v & Hv)].
  apply in_map_iff in Hv. destruct Hv as (f & [= Ey Eu _] & Hf).
  apply filter_In in Hf. destruct Hf as [Hf Hnan].
  rewrite Eu in Hnan. split; [now destruct (is_nan estado) |].
  unfold gdf_para_evolucao in Hf. rewrite Huf in Hf.
  destruct estados_selecionados as [|s0 S]; simpl in Hf.
  - split; [congruence |]. exists f. auto.
  - apply filter_In in Hf. destruct Hf as [Hf Hsel]. rewrite Eu in Hsel.
    split; [intros _; exact Hsel |]. exists f. auto.
Qed.

End PageStops.

(** ** The further properties on the sample tables *)

(** A table with the year and the area only is not loaded. *)
Lemma load_data_needs_state_or_path_row_witness :
  load_data (raw_year_area_only binary64) = ([ErrorLoad], None).
Proof.
  apply (@load_data_needs_state_or_path_row (plane binary64)
           (raw_year_area_only binary64)); reflexivity.
Defined.

(** A table with [year] and [ano] is not loaded. *)
Lemma load_data_year_and_ano_witness :
  load_data (raw_year_and_ano binary64) = ([ErrorLoad], None).
Proof.
  apply (@load_data_year_and_ano (plane binary64) (raw_year_and_ano binary64));
    reflexivity.
Defined.

(** [simplify.py] on [raw_deforestation], and the loader before and after
    it. *)
Example simplify_raw_deforestation :
  @simplify (plane binary64) truncate_point (raw_deforestation binary64)
  = Some (light_deforestation binary64) /\
  load_data (raw_deforestation binary64) = ([], Some (gdf_deforestation binary64)) /\
  load_data (light_deforestation binary64) = ([], Some (gdf_light binary64)) /\
  @simplify (plane binary64) truncate_point (raw_prodes binary64) = None.
Proof. repeat split; vm_compute; reflexivity. Qed.

(** On [raw_deforestation]: the two loaded tables have the same rows. *)
Lemma simplify_preserves_loaded_rows_witness :
  gdf_columns (gdf_light binary64)
  = ["ano"; "area_km2"; "uf"; "satelite"; "path_row"; "municipio"]%string /\
  Forall2 (fun f f' : @Feature (plane binary64) =>
             index f' = index f /\ ano f' = ano f /\ area_km2 f' = area_km2 f /\
             uf f' = uf f /\ municipio f' = municipio f)
          (features (gdf_deforestation binary64)) (features (gdf_light binary64)).
Proof.
  apply (@simplify_preserves_loaded_rows (plane binary64) truncate_point
           (raw_deforestation binary64) (light_deforestation binary64) [] []).
  - simpl. repeat (constructor; [simpl; intuition discriminate |]). constructor.
  - simpl. intuition discriminate.
  - simpl. intuition discriminate.
  - simpl. intuition discriminate.
  - reflexivity.
  - reflexivity.
  - reflexivity.
Defined.

(** On [raw_prodes], which has no [path_row] and declares EPSG:4674:
    [municipio] is the state, and the geometries went through [to_crs]. *)
Lemma loaded_rows_carry_witness :
  (label_in "ano" (gdf_columns (gdf_prodes binary64)) = true /\
   label_in "area_km2" (gdf_columns (gdf_prodes binary64)) = true /\
   label_in "municipio" (gdf_columns (gdf_prodes binary64)) = true) /\
  exists p_ano p_area p_mun,
    column_pos "ano" (rename_columns (columns (raw_prodes binary64))) = Some p_ano /\
    column_pos "area_km2" (rename_columns (columns (raw_prodes binary64)))
    = Some p_area /\
    column_pos (if label_in "path_row" (rename_columns (columns (raw_prodes binary64)))
                then "path_row" else "uf")
               (rename_columns (columns (raw_prodes binary64)))
    = Some p_mun /\
    Forall2 (fun (f : @Feature (plane binary64)) (r : @RawRow (plane binary64)) =>
               municipio f = cell_at p_mun r /\
               (label_in "path_row" (rename_columns (columns (raw_prodes binary64)))
                = false -> municipio f = uf f) /\
               match crs (raw_prodes binary64) with
               | None => geometry f = raw_geometry r
               | Some c =>
                   if @is_epsg4326 (plane binary64) c
                   then geometry f = raw_geometry r
                   else @to_crs (plane binary64) c (raw_geometry r) = Some (geometry f)
               end)
            (features (gdf_prodes binary64))
            (filter (valid_row p_ano p_area) (rows (raw_prodes binary64))).
Proof.
  exact (@loaded_rows_carry (plane binary64) (raw_prodes binary64) []
           (gdf_prodes binary64) eq_refl).
Defined.

(** On [gdf_three] with the year 2021 and the state PA selected. *)
Lemma filters_select_witness :
  In (polygon binary64 2 2021 3 "PA")
     (apply_filters (gdf_three binary64) 2021 [CStr "PA"]) <->
  In (polygon binary64 2 2021 3 "PA") (features (gdf_three binary64)) /\
  (2021 <> 0 -> ano (polygon binary64 2 2021 3 "PA") = 2021) /\
  ([CStr "PA"] <> [] -> label_in "uf" (gdf_columns (gdf_three binary64)) = true ->
   isin (uf (polygon binary64 2 2021 3 "PA")) [CStr "PA"] = true).
Proof.
  apply (@filters_select (plane binary64) (gdf_three binary64) 2021 [CStr "PA"]
           (polygon binary64 2 2021 3 "PA")).
  reflexivity.
Defined.

(** The year 0 selects every year, and no state selects every state. *)
Example filters_without_selection :
  apply_filters (gdf_three binary64) 0 [] = features (gdf_three binary64) /\
  apply_filters (gdf_three binary64) 2020 []
  = [polygon binary64 0 2020 10 "PA"; polygon binary64 1 2020 5 "MT"].
Proof. split; reflexivity. Qed.


(** On [gdf_three]: the totals are 15 in 2020 and 3 in 2021. *)
Lemma peak_years_witness :
  exists y_hi s_hi y_lo s_lo,
    ano_maior (features (gdf_three binary64)) = Some y_hi /\
    ano_menor (features (gdf_three binary64)) = Some y_lo /\
    ano_pico_geral (gdf_para_evolucao (gdf_three binary64) []) = Some y_hi /\
    In (y_hi, s_hi) (evolucao_temporal (features (gdf_three binary64))) /\
    In (y_lo, s_lo) (evolucao_temporal (features (gdf_three binary64))) /\
    forall y s, In (y, s) (evolucao_temporal (features (gdf_three binary64))) ->
      (s_lo <= s <= s_hi)%Q /\
      (s == s_hi -> y_hi <= y) /\
      (s == s_lo -> y_lo <= y).
Proof.
  apply (@peak_years (plane binary64) (gdf_three binary64)). discriminate.
Defined.

Example statistics_of_gdf_three :
  ano_maior (features (gdf_three binary64)) = Some 2020 /\
  ano_menor (features (gdf_three binary64)) = Some 2021 /\
  ano_min (features (gdf_three binary64)) = Some 2020 /\
  ano_max (features (gdf_three binary64)) = Some 2021 /\
  estado_mais_desmatado (features (gdf_three binary64)) = Some (CStr "PA") /\
  estado_mais_desmatado (polygons_without_state binary64) = None /\
  ano_maior (polygons_with_ties binary64) = Some 2020 /\
  estado_mais_desmatado (polygons_with_ties binary64) = Some (CStr "MT").
Proof. repeat split; vm_compute; reflexivity. Qed.

(** On [gdf_three] with the year 2020 and the states PA and MT selected. *)
Lemma num_estados_within_selection_witness :
  (num_estados (apply_filters (gdf_three binary64) 2020 [CStr "PA"; CStr "MT"])
   <= length [CStr "PA"; CStr "MT"])%nat.
Proof.
  apply (@num_estados_within_selection (plane binary64) (gdf_three binary64) 2020
           [CStr "PA"; CStr "MT"]).
  - discriminate.
  - reflexivity.
Defined.

(** On [raw_no_valid_row]. *)
Lemma main_without_valid_row_witness :
  exists p_ano p_area,
    column_pos "ano" (rename_columns (columns (raw_no_valid_row binary64)))
    = Some p_ano /\
    column_pos "area_km2" (rename_columns (columns (raw_no_valid_row binary64)))
    = Some p_area /\
    (@features (plane binary64) (@Build_GeoDataFrame (plane binary64)
        ["ano"; "area_km2"; "uf"; "municipio"]%string []) = [] <->
     forall r, In r (rows (raw_no_valid_row binary64)) ->
               valid_row p_ano p_area r = false) /\
    (@features (plane binary64) (@Build_GeoDataFrame (plane binary64)
        ["ano"; "area_km2"; "uf"; "municipio"]%string []) = [] ->
     main (raw_no_valid_row binary64) 2020 [] = ([ErrorNoData], tt)).
Proof.
  apply (@main_without_valid_row (plane binary64) (raw_no_valid_row binary64) []
           (@Build_GeoDataFrame (plane binary64)
              ["ano"; "area_km2"; "uf"; "municipio"]%string [])
           2020 []).
  reflexivity.
Defined.

(** On [raw_missing_state], whose states are a text and a missing value. *)
Lemma mixed_states_stop_the_page_witness :
  main (raw_missing_state binary64) 2020 [] = ([Uncaught], tt).
Proof.
  apply (@mixed_states_stop_the_page (plane binary64) (raw_missing_state binary64)
           [] (gdf_missing_state binary64) 2020 []
           (polygon binary64 0 2020 10 "PA")
           (@Build_Feature (plane binary64) 1 2021 3 CNaN CNaN (0, 0)%Q)).
  - reflexivity.
  - reflexivity.
  - left. reflexivity.
  - reflexivity.
  - right. left. reflexivity.
  - reflexivity.
Defined.

(** On [raw_three] with the year 2021 and the state PA selected: the bars
    are those of PA in 2020 and in 2021. *)
Lemma bars_follow_states_only_witness :
  [((2020, CStr "PA"), 10%Q); ((2021, CStr "PA"), 3%Q)]
  = evolucao_por_estado (gdf_para_evolucao (gdf_three binary64) [CStr "PA"]) /\
  forall y estado s,
    In ((y, estado), s) [((2020, CStr "PA"), 10%Q); ((2021, CStr "PA"), 3%Q)] ->
    is_nan estado = false /\
    ([CStr "PA"] <> [] -> isin estado [CStr "PA"] = true) /\
    exists f, In f (features (gdf_three binary64)) /\ ano f = y /\ uf f = estado.
Proof.
  apply (@bars_follow_states_only (plane binary64) (raw_three binary64) []
           (gdf_three binary64) 2021 [CStr "PA"]).
  - reflexivity.
  - right. right. left. reflexivity.
Defined.
